(** * S-DES over BMP payloads: a shallow embedding of sdes.c and bmper.c

    The C code works on [uint8_t] and [uint16_t] values.  They are modelled
    as [Z] with every narrowing conversion written out ([u8], [u16]); bit
    operations are the ones of [Z].  C strings are [string]s read up to the
    first NUL character. *)

From Stdlib Require Import ZArith List Bool Lia String Ascii.
Import ListNotations.
Local Open Scope Z_scope.

(** ** Fixed-width integers *)

Definition u8 (x : Z) : Z := x mod 256.
Definition u16 (x : Z) : Z := x mod 65536.

Definition is_u8 (x : Z) : Prop := 0 <= x < 256.

(** Boolean range test, used to enumerate all bytes. *)
Definition all_below (n : nat) (p : Z -> bool) : bool :=
  forallb p (map Z.of_nat (seq 0 n)).

(** ** sdes.c *)

Module Sdes.

Definition P10 : list Z := [3;5;2;7;4;10;1;9;8;6].
Definition P8 : list Z := [6;3;7;4;8;5;10;9].
Definition IP : list Z := [2;6;3;1;4;8;5;7].
Definition IP_INV : list Z := [4;1;3;5;7;2;8;6].
Definition EP : list Z := [4;1;2;3;2;3;4;1].
Definition P4 : list Z := [2;4;3;1].

Definition S0 : list (list Z) :=
  [[1;0;3;2];
   [3;2;1;0];
   [0;2;1;3];
   [3;1;3;2]].
Definition S1 : list (list Z) :=
  [[0;1;2;3];
   [2;0;1;3];
   [3;0;1;0];
   [2;1;0;3]].

(** [T[r][c]] for a 4x4 table; the indices computed by [fk] are below 4. *)
Definition sbox (T : list (list Z)) (r c : Z) : Z :=
  nth (Z.to_nat c) (nth (Z.to_nat r) T []) 0.

(** [get_bit(x, index_from_left, nbits)] *)
Definition get_bit (x index_from_left nbits : Z) : Z :=
  let pos_from_right := nbits - index_from_left in
  Z.land (Z.shiftr x pos_from_right) 1.

(** The loop of [permute]: [i] runs over the first [len] entries of [tab],
    [out] is a [uint16_t]. *)
Fixpoint permute_loop (inp : Z) (tab : list Z) (len : nat) (inbits out : Z) : Z :=
  match len, tab with
  | S len', t :: tab' =>
      let bit := get_bit inp t inbits in
      permute_loop inp tab' len' inbits
        (u16 (Z.lor (Z.shiftl out 1) (Z.land bit 1)))
  | _, _ => out
  end.

Definition permute (inp : Z) (tab : list Z) (len : nat) (inbits : Z) : Z :=
  permute_loop inp tab len inbits 0.

(** [rol(val, sh, width)] *)
Definition rol (val sh width : Z) : Z :=
  let mask := u16 (Z.shiftl 1 width - 1) in
  let val := Z.land val mask in
  u16 (Z.land (Z.lor (Z.shiftl val sh) (Z.shiftr val (width - sh))) mask).

(** [sdes_generate_subkeys]: the pair written through [K1] and [K2]. *)
Definition sdes_generate_subkeys (key10 : Z) : Z * Z :=
  let p10 := permute key10 P10 10 10 in
  let left := u16 (Z.land (Z.shiftr p10 5) 31) in
  let right := u16 (Z.land p10 31) in
  let left := rol left 1 5 in
  let right := rol right 1 5 in
  let ls1 := u16 (Z.lor (Z.shiftl left 5) right) in
  let k1 := u8 (permute ls1 P8 8 10) in
  let left := rol left 2 5 in
  let right := rol right 2 5 in
  let ls2 := u16 (Z.lor (Z.shiftl left 5) right) in
  let k2 := u8 (permute ls2 P8 8 10) in
  (k1, k2).

(** [fk]: the Feistel round, [(L xor F(R, K)) || R]. *)
Definition fk (inp subkey : Z) : Z :=
  let L := u8 (Z.land (Z.shiftr inp 4) 15) in
  let R := u8 (Z.land inp 15) in
  let ep_in := R in
  let EPout := u8 (permute ep_in EP 8 4) in
  let x := u8 (Z.lxor EPout subkey) in
  let left4 := u8 (Z.land (Z.shiftr x 4) 15) in
  let right4 := u8 (Z.land x 15) in
  let r0 := Z.lor (Z.shiftr (Z.land left4 8) 2) (Z.land left4 1) in
  let c0 := Z.land (Z.shiftr left4 1) 3 in
  let r1 := Z.lor (Z.shiftr (Z.land right4 8) 2) (Z.land right4 1) in
  let c1 := Z.land (Z.shiftr right4 1) 3 in
  let s0 := sbox S0 r0 c0 in
  let s1 := sbox S1 r1 c1 in
  let s := u8 (Z.lor (Z.shiftl s0 2) s1) in
  let p4 := u8 (permute s P4 4 4) in
  let outL := u8 (Z.lxor L p4) in
  u8 (Z.lor (Z.shiftl outL 4) R).

Definition ip (x : Z) : Z := u8 (permute x IP 8 8).
Definition ip_inv (x : Z) : Z := u8 (permute x IP_INV 8 8).

Definition swap_halves (x : Z) : Z :=
  u8 (Z.lor (Z.shiftl x 4) (Z.shiftr x 4)).

Definition sdes_encrypt_byte (inp K1 K2 : Z) : Z :=
  let x := ip inp in
  let x := fk x K1 in
  let x := swap_halves x in
  let x := fk x K2 in
  let x := ip_inv x in
  x.

Definition sdes_decrypt_byte (inp K1 K2 : Z) : Z :=
  let x := ip inp in
  let x := fk x K2 in
  let x := swap_halves x in
  let x := fk x K1 in
  let x := ip_inv x in
  x.

(** Characters of the key text. *)
Definition is_nul (ch : ascii) : bool := (ch =? "000")%char.
Definition is_lf (ch : ascii) : bool := (ch =? "010")%char.
Definition is_cr (ch : ascii) : bool := (ch =? "013")%char.
Definition is_bit_char (ch : ascii) : bool := ((ch =? "0") || (ch =? "1"))%char.
Definition is_blank (ch : ascii) : bool := ((ch =? " ") || (ch =? "009"))%char.

(** The loop of [sdes_parse_key10_bits].  It stops at the end of the C string
    (the end of [bits] or an embedded NUL), at a line feed or at a carriage
    return, and yields the final [(n, k)]; an invalid character leaves the
    function at once with [-2].  [k] is a [uint16_t]. *)
Fixpoint parse_loop (bits : string) (n k : Z) : Z + Z * Z :=
  match bits with
  | EmptyString => inr (n, k)
  | String ch rest =>
      if is_nul ch || is_lf ch || is_cr ch then inr (n, k)
      else if is_bit_char ch then
        parse_loop rest (n + 1)
          (u16 (Z.lor (Z.shiftl k 1) (Z.of_nat (nat_of_ascii ch) - 48)))
      else if is_blank ch then parse_loop rest (n + 1) k
      else inl (-2)
  end.

(** [sdes_parse_key10_bits(bits, out_key10)].  A pointer is [None] when it is
    NULL; [out_key10] holds the content of the pointed cell.  The result is
    the return value and the content of the cell afterwards. *)
Definition sdes_parse_key10_bits (bits : option string) (out_key10 : option Z)
  : Z * option Z :=
  match bits, out_key10 with
  | Some bits, Some _ =>
      match parse_loop bits 0 0 with
      | inl e => (e, out_key10)
      | inr (n, k) =>
          if n <? 10 then (-3, out_key10)
          else (0, Some (Z.land k 1023))
      end
  | _, _ => (-1, out_key10)
  end.

End Sdes.

(** ** bmper.c: the pixel loops of [main] *)

Module Bmper.
Import Sdes.

Inductive sdes_mode_t := MODE_ECB | MODE_CBC | MODE_CTR.

(** [while ((c = fgetc(fi)) != EOF) { body }]: the rest of the input file is
    the list of the values [fgetc] returns before [EOF]; a loop body maps the
    loop-carried variable and [c] to the byte handed to [fputc] and the new
    value of the variable.  The result is the list of bytes written, in
    order. *)
Fixpoint while_fgetc {S : Type} (body : S -> Z -> Z * S) (st : S) (fi : list Z)
  : list Z :=
  match fi with
  | [] => []
  | c :: fi' =>
      let (out, st') := body st c in
      out :: while_fgetc body st' fi'
  end.

(** The six loop bodies.  The ECB loops carry no variable. *)
Definition ecb_encrypt_body (K1 K2 : Z) (_ : unit) (c : Z) : Z * unit :=
  let out := sdes_encrypt_byte (u8 c) K1 K2 in
  (out, tt).

Definition cbc_encrypt_body (K1 K2 : Z) (prev c : Z) : Z * Z :=
  let x := u8 (Z.lxor (u8 c) prev) in
  let out := sdes_encrypt_byte x K1 K2 in
  (out, out).

Definition ctr_encrypt_body (K1 K2 : Z) (ctr c : Z) : Z * Z :=
  let keystream := sdes_encrypt_byte ctr K1 K2 in
  let out := u8 (Z.lxor (u8 c) keystream) in
  (out, u8 (ctr + 1)).

Definition ecb_decrypt_body (K1 K2 : Z) (_ : unit) (c : Z) : Z * unit :=
  let out := sdes_decrypt_byte (u8 c) K1 K2 in
  (out, tt).

Definition cbc_decrypt_body (K1 K2 : Z) (prev c : Z) : Z * Z :=
  let dec := sdes_decrypt_byte (u8 c) K1 K2 in
  let out := u8 (Z.lxor dec prev) in
  (out, u8 c).

Definition ctr_decrypt_body (K1 K2 : Z) (ctr c : Z) : Z * Z :=
  let keystream := sdes_encrypt_byte ctr K1 K2 in
  let out := u8 (Z.lxor (u8 c) keystream) in
  (out, u8 (ctr + 1)).

(** The branch structure around the loops: [do_encrypt] is the C truth value
    returned by [prompt_yesno], [iv_or_nonce] initialises [chain]. *)
Definition process_pixels (do_encrypt : Z) (mode : sdes_mode_t)
    (K1 K2 iv_or_nonce : Z) (fi : list Z) : list Z :=
  let chain := iv_or_nonce in
  if negb (do_encrypt =? 0) then
    match mode with
    | MODE_ECB => while_fgetc (ecb_encrypt_body K1 K2) tt fi
    | MODE_CBC => let prev := chain in while_fgetc (cbc_encrypt_body K1 K2) prev fi
    | MODE_CTR => let ctr := chain in while_fgetc (ctr_encrypt_body K1 K2) ctr fi
    end
  else
    match mode with
    | MODE_ECB => while_fgetc (ecb_decrypt_body K1 K2) tt fi
    | MODE_CBC => let prev := chain in while_fgetc (cbc_decrypt_body K1 K2) prev fi
    | MODE_CTR => let ctr := chain in while_fgetc (ctr_decrypt_body K1 K2) ctr fi
    end.

End Bmper.

(** ** The cipher as the specification words it: bit strings, leftmost bit
    first, and tables of 1-based positions counted from the left *)

Module Spec.

Definition bits := list bool.

(** The [w] low bits of [x], most significant first. *)
Definition to_bits (w : nat) (x : Z) : bits :=
  map (fun i => Z.testbit x (Z.of_nat (w - 1 - i))) (seq 0 w).

Definition of_bits (bs : bits) : Z :=
  fold_left (fun acc (b : bool) => 2 * acc + Z.b2z b) bs 0.

(** Output bit [i] is the input bit at position [table[i]]. *)
Definition select (table : list nat) (bs : bits) : bits :=
  map (fun pos => nth (pos - 1) bs false) table.

Definition rotate_left (n : nat) (bs : bits) : bits :=
  skipn n bs ++ firstn n bs.

Fixpoint xor_bits (a b : bits) : bits :=
  match a, b with
  | x :: a', y :: b' => xorb x y :: xor_bits a' b'
  | _, _ => []
  end.

Definition P10 : list nat := [3;5;2;7;4;10;1;9;8;6]%nat.
Definition P8 : list nat := [6;3;7;4;8;5;10;9]%nat.
Definition IP : list nat := [2;6;3;1;4;8;5;7]%nat.
Definition IP_INV : list nat := [4;1;3;5;7;2;8;6]%nat.
Definition EP : list nat := [4;1;2;3;2;3;4;1]%nat.
Definition P4 : list nat := [2;4;3;1]%nat.

Definition S0 : list (list nat) :=
  [[1;0;3;2]; [3;2;1;0]; [0;2;1;3]; [3;1;3;2]]%nat.
Definition S1 : list (list nat) :=
  [[0;1;2;3]; [2;0;1;3]; [3;0;1;0]; [2;1;0;3]]%nat.

(** A nibble read as (bit0, bit1, bit2, bit3): row = (bit0<<1)|bit3,
    column = (bit1<<1)|bit2; the entry is a 2-bit value. *)
Definition substitute (T : list (list nat)) (half : bits) : bits :=
  let bit := fun i => Nat.b2n (nth i half false) in
  let row := (2 * bit 0 + bit 3)%nat in
  let column := (2 * bit 1 + bit 2)%nat in
  to_bits 2 (Z.of_nat (nth column (nth row T []) 0%nat)).

Definition fk (inp subkey : bits) : bits :=
  let Left4 := firstn 4 inp in
  let Right4 := skipn 4 inp in
  let x := xor_bits (select EP Right4) subkey in
  let s := substitute S0 (firstn 4 x) ++ substitute S1 (skipn 4 x) in
  xor_bits Left4 (select P4 s) ++ Right4.

Definition swap (bs : bits) : bits := skipn 4 bs ++ firstn 4 bs.

Definition encrypt (block K1 K2 : bits) : bits :=
  select IP_INV (fk (swap (fk (select IP block) K1)) K2).

Definition decrypt (block K1 K2 : bits) : bits :=
  select IP_INV (fk (swap (fk (select IP block) K2)) K1).

Definition key_schedule (key : bits) : bits * bits :=
  let p := select P10 key in
  let Left5 := rotate_left 1 (firstn 5 p) in
  let Right5 := rotate_left 1 (skipn 5 p) in
  let K1 := select P8 (Left5 ++ Right5) in
  let Left5' := rotate_left 2 Left5 in
  let Right5' := rotate_left 2 Right5 in
  let K2 := select P8 (Left5' ++ Right5') in
  (K1, K2).

Fixpoint bits_eqb (a b : bits) : bool :=
  match a, b with
  | [], [] => true
  | x :: a', y :: b' => Bool.eqb x y && bits_eqb a' b'
  | _, _ => false
  end.

End Spec.

(** ** The key text as the parser sees it *)

Module KeyText.
Import Sdes.

(** The characters the loop visits: those before the first NUL, line feed or
    carriage return. *)
Fixpoint line (s : string) : list ascii :=
  match s with
  | EmptyString => []
  | String ch rest =>
      if is_nul ch || is_lf ch || is_cr ch then [] else ch :: line rest
  end.

Definition valid_char (ch : ascii) : bool := is_bit_char ch || is_blank ch.

(** The significant bits of a line, in reading order. *)
Definition significant (l : list ascii) : Spec.bits :=
  map (fun ch => (ch =? "1")%char) (filter is_bit_char l).

(** A bit string written as text, e.g. ["1010000010"]. *)
Definition bit_string (s : string) : Spec.bits := significant (line s).

(** Value of a bit string appended to the bits of [k]. *)
Definition of_bits_from (k : Z) (bs : Spec.bits) : Z :=
  fold_left (fun acc (b : bool) => 2 * acc + Z.b2z b) bs k.

(** The accumulator of the parser after reading the bits [bs]. *)
Definition shift_in (k : Z) (bs : Spec.bits) : Z :=
  fold_left (fun k (b : bool) => u16 (Z.lor (Z.shiftl k 1) (Z.b2z b))) bs k.

(** The last [n] elements of a list. *)
Definition lastn {A : Type} (n : nat) (l : list A) : list A :=
  skipn (List.length l - n) l.

End KeyText.

(** ** bmper.c: helpers and the file phase of [main] *)

Module BmpFile.
Import Sdes Bmper.

(** A value as an [int] of a 32-bit two's-complement target. *)
Definition to_int (x : Z) : Z :=
  (x + 2147483648) mod 4294967296 - 2147483648.

(** [read_uint32_le(p)]; [p] is the memory from the pointer on, as
    [unsigned char]s.  The shift of [p[3]] reaches the sign bit when
    [p[3] >= 128]; the result is then taken as the wrapped [int]. *)
Definition read_uint32_le (p : list Z) : Z :=
  to_int (Z.lor (Z.lor (Z.lor (nth 0 p 0) (Z.shiftl (nth 1 p 0) 8))
                       (Z.shiftl (nth 2 p 0) 16))
                (Z.shiftl (nth 3 p 0) 24)).

(** The content of a C string: the characters before the first NUL. *)
Fixpoint c_str (s : string) : list ascii :=
  match s with
  | EmptyString => []
  | String ch rest => if is_nul ch then [] else ch :: c_str rest
  end.

(** The loop of [trim_newline]: [n] steps down while [s[n-1]] is a line feed
    or a carriage return; the result is the final [n]. *)
Fixpoint trim_loop (s : list ascii) (n : nat) : nat :=
  match n with
  | O => O
  | S m => if is_lf (nth m s "000"%char) || is_cr (nth m s "000"%char)
           then trim_loop s m else n
  end.

(** [trim_newline(s)]: the content of the buffer afterwards. *)
Definition trim_newline (s : string) : string :=
  let n := List.length (c_str s) in
  string_of_list_ascii (firstn (trim_loop (c_str s) n) (c_str s)).

(** The file phase of [main], from the read of the header on.  [fi] is the
    content of the input file, the result is the exit status and the bytes
    written to the output file.  [malloc_ok extra] tells whether the
    allocation of [extra] bytes succeeds. *)
Definition main_process_file (malloc_ok : Z -> bool) (do_encrypt : Z)
    (mode : sdes_mode_t) (K1 K2 iv_or_nonce : Z) (fi : list Z)
  : Z * list Z :=
  let header := firstn 54 fi in
  let fi := skipn 54 fi in
  let hr := Z.of_nat (List.length header) in
  if negb (hr =? 54) then (1, [])
  else if negb (nth 0 header 0 =? 66) || negb (nth 1 header 0 =? 77)
  then (1, [])
  else
    let offBits := read_uint32_le (skipn 10 header) in
    let offBits := if offBits <? 54 then 54 else offBits in
    let fo := header in
    if offBits >? 54 then
      let extra := offBits - 54 in
      if negb (malloc_ok extra) then (1, fo)
      else
        let buf := firstn (Z.to_nat extra) fi in
        let fi := skipn (Z.to_nat extra) fi in
        let r := Z.of_nat (List.length buf) in
        if negb (to_int r =? extra) then (1, fo)
        else
          let fo := fo ++ buf in
          (0, fo ++ process_pixels do_encrypt mode K1 K2 iv_or_nonce fi)
    else (0, fo ++ process_pixels do_encrypt mode K1 K2 iv_or_nonce fi).

End BmpFile.

(** ** Auxiliary notions for the statements below *)

Module Aux.
Import Sdes Bmper.

(** The loop-carried variable after a run of [while_fgetc]. *)
Definition final_state {S : Type} (body : S -> Z -> Z * S) (st : S)
    (fi : list Z) : S :=
  fold_left (fun st c => snd (body st c)) fi st.

(** The 10-character text of a key, most significant bit first. *)
Definition key_text (k : Z) : string :=
  string_of_list_ascii
    (map (fun b : bool => if b then "1"%char else "0"%char) (Spec.to_bits 10 k)).

Fixpoint nodupb (l : list Z) : bool :=
  match l with
  | [] => true
  | x :: r => negb (existsb (Z.eqb x) r) && nodupb r
  end.

(** A subkey pair packed into one number. *)
Definition subkey_code (key : Z) : Z :=
  fst (sdes_generate_subkeys key) * 256 + snd (sdes_generate_subkeys key).

(** The master keys whose two subkeys coincide. *)
Definition equal_subkey_keys : list Z := [0; 96; 392; 488; 535; 631; 927; 1023].

(** [line] on the characters of a C string. *)
Fixpoint line_of (l : list ascii) : list ascii :=
  match l with
  | [] => []
  | ch :: rest => if is_lf ch || is_cr ch then [] else ch :: line_of rest
  end.

(** The little-endian value of the offset field, bytes 10 to 13 of a file. *)
Definition le32 (fi : list Z) : Z :=
  nth 10 fi 0 + 256 * nth 11 fi 0 + 65536 * nth 12 fi 0
  + 16777216 * nth 13 fi 0.

(** Where the pixel data starts: the offset field, but not below 54. *)
Definition data_offset (fi : list Z) : nat := Z.to_nat (Z.max 54 (le32 fi)).

(** A small file with the magic bytes, the offset field 56, two bytes of
    palette and three bytes of pixel data. *)
Definition sample_bmp : list Z :=
  [66; 77] ++ repeat 0 8 ++ [56; 0; 0; 0] ++ repeat 0 40 ++ [9; 9] ++ [1; 2; 3].

End Aux.

(** * Properties *)

(** ** Enumeration of small ranges *)

Lemma all_below_spec (n : nat) (p : Z -> bool) :
  all_below n p = true -> forall x, 0 <= x < Z.of_nat n -> p x = true.
Proof.
  unfold all_below. intros H x Hx.
  rewrite forallb_forall in H. apply H.
  rewrite <- (Z2Nat.id x) by lia.
  apply in_map, in_seq. lia.
Qed.

Lemma all_u8 (p : Z -> bool) :
  all_below 256 p = true -> forall x, is_u8 x -> p x = true.
Proof.
  intros H x Hx. apply (all_below_spec 256 p H). unfold is_u8 in Hx. simpl. lia.
Qed.

Lemma all_u8_2 (p : Z -> Z -> bool) :
  all_below 256 (fun x => all_below 256 (p x)) = true ->
  forall x y, is_u8 x -> is_u8 y -> p x y = true.
Proof.
  intros H x y Hx Hy.
  apply (all_u8 (p x)); [| exact Hy].
  apply (all_u8 (fun x => all_below 256 (p x)) H x Hx).
Qed.

(** ** Fixed-width arithmetic *)

Lemma u8_range (x : Z) : is_u8 (u8 x).
Proof. unfold is_u8, u8. apply Z.mod_pos_bound. lia. Qed.

Lemma u8_id (x : Z) : is_u8 x -> u8 x = x.
Proof. unfold is_u8, u8. intros H. apply Z.mod_small. exact H. Qed.

Lemma lxor_u8 (a b : Z) : is_u8 a -> is_u8 b -> is_u8 (Z.lxor a b).
Proof.
  intros Ha Hb.
  assert (E : all_below 256 (fun a => all_below 256 (fun b =>
                (0 <=? Z.lxor a b) && (Z.lxor a b <? 256))) = true)
    by (vm_compute; reflexivity).
  assert (H := all_u8_2 _ E a b Ha Hb). cbv beta in H.
  apply andb_true_iff in H. destruct H as [H1 H2].
  unfold is_u8. apply Z.leb_le in H1. apply Z.ltb_lt in H2. lia.
Qed.

Lemma lxor_cancel_r (a b : Z) : Z.lxor (Z.lxor a b) b = a.
Proof. now rewrite Z.lxor_assoc, Z.lxor_nilpotent, Z.lxor_0_r. Qed.

Create HintDb u8.
#[local] Hint Resolve u8_range lxor_u8 : u8.

(** ** The block cipher on bytes *)

Module SdesFacts.
Import Sdes.

Lemma ip_u8 x : is_u8 (ip x).
Proof. apply u8_range. Qed.

Lemma ip_inv_u8 x : is_u8 (ip_inv x).
Proof. apply u8_range. Qed.

Lemma fk_u8 x k : is_u8 (fk x k).
Proof. apply u8_range. Qed.

Lemma swap_halves_u8 x : is_u8 (swap_halves x).
Proof. apply u8_range. Qed.

Lemma sdes_encrypt_byte_u8 b K1 K2 : is_u8 (sdes_encrypt_byte b K1 K2).
Proof. apply ip_inv_u8. Qed.

Lemma sdes_decrypt_byte_u8 b K1 K2 : is_u8 (sdes_decrypt_byte b K1 K2).
Proof. apply ip_inv_u8. Qed.

Lemma sdes_generate_subkeys_u8 key :
  is_u8 (fst (sdes_generate_subkeys key)) /\ is_u8 (snd (sdes_generate_subkeys key)).
Proof. split; apply u8_range. Qed.

#[local] Hint Resolve ip_u8 ip_inv_u8 fk_u8 swap_halves_u8
  sdes_encrypt_byte_u8 sdes_decrypt_byte_u8 : u8.

(** The two permutations undo each other. *)
Lemma ip_inv_ip x : is_u8 x -> ip_inv (ip x) = x.
Proof.
  intros Hx. apply Z.eqb_eq.
  apply (all_u8 (fun x => ip_inv (ip x) =? x)); [vm_compute; reflexivity | exact Hx].
Qed.

Lemma ip_ip_inv x : is_u8 x -> ip (ip_inv x) = x.
Proof.
  intros Hx. apply Z.eqb_eq.
  apply (all_u8 (fun x => ip (ip_inv x) =? x)); [vm_compute; reflexivity | exact Hx].
Qed.

Lemma swap_halves_involutive x : is_u8 x -> swap_halves (swap_halves x) = x.
Proof.
  intros Hx. apply Z.eqb_eq.
  apply (all_u8 (fun x => swap_halves (swap_halves x) =? x));
    [vm_compute; reflexivity | exact Hx].
Qed.

(** The round function is its own inverse under a fixed subkey: the low
    nibble passes through, so the same mask is XORed into the high nibble
    twice. *)
Lemma fk_involutive x k : is_u8 x -> is_u8 k -> fk (fk x k) k = x.
Proof.
  intros Hx Hk. apply Z.eqb_eq.
  apply (all_u8_2 (fun x k => fk (fk x k) k =? x));
    [vm_compute; reflexivity | exact Hx | exact Hk].
Qed.

(** Decryption is encryption under the swapped subkey pair. *)
Lemma sdes_decrypt_byte_swap b K1 K2 :
  sdes_decrypt_byte b K1 K2 = sdes_encrypt_byte b K2 K1.
Proof. unfold sdes_decrypt_byte, sdes_encrypt_byte. reflexivity. Qed.

Lemma decrypt_encrypt b K1 K2 :
  is_u8 b -> is_u8 K1 -> is_u8 K2 ->
  sdes_decrypt_byte (sdes_encrypt_byte b K1 K2) K1 K2 = b.
Proof.
  intros Hb H1 H2. unfold sdes_decrypt_byte, sdes_encrypt_byte.
  rewrite ip_ip_inv by auto with u8.
  rewrite fk_involutive by auto with u8.
  rewrite swap_halves_involutive by auto with u8.
  rewrite fk_involutive by auto with u8.
  apply ip_inv_ip. exact Hb.
Qed.

Lemma encrypt_decrypt b K1 K2 :
  is_u8 b -> is_u8 K1 -> is_u8 K2 ->
  sdes_encrypt_byte (sdes_decrypt_byte b K1 K2) K1 K2 = b.
Proof.
  intros Hb H1 H2.
  rewrite sdes_decrypt_byte_swap.
  rewrite <- (sdes_decrypt_byte_swap _ K2 K1).
  apply decrypt_encrypt; assumption.
Qed.

Lemma sdes_encrypt_byte_inj b1 b2 K1 K2 :
  is_u8 b1 -> is_u8 b2 -> is_u8 K1 -> is_u8 K2 ->
  sdes_encrypt_byte b1 K1 K2 = sdes_encrypt_byte b2 K1 K2 -> b1 = b2.
Proof.
  intros Hb1 Hb2 H1 H2 E.
  rewrite <- (decrypt_encrypt b1 K1 K2), <- (decrypt_encrypt b2 K1 K2) by assumption.
  now rewrite E.
Qed.

End SdesFacts.

(** ** The pixel loops *)

Module BmperFacts.
Import Sdes Bmper SdesFacts.

Lemma lxor_eq_l (p c : Z) : Z.lxor p c = p -> c = 0.
Proof.
  intros H.
  assert (E : Z.lxor p (Z.lxor p c) = Z.lxor p p) by now rewrite H.
  rewrite <- Z.lxor_assoc, Z.lxor_nilpotent, Z.lxor_0_l in E. exact E.
Qed.

(** CBC decryption undoes CBC encryption from the same chaining value. *)
Lemma cbc_loops_round_trip K1 K2 fi :
  is_u8 K1 -> is_u8 K2 -> Forall is_u8 fi ->
  forall prev, is_u8 prev ->
    while_fgetc (cbc_decrypt_body K1 K2) prev
      (while_fgetc (cbc_encrypt_body K1 K2) prev fi) = fi.
Proof.
  intros H1 H2 Hfi. induction Hfi as [| c fi Hc Hfi IH]; intros prev Hprev.
  - reflexivity.
  - cbn [while_fgetc cbc_encrypt_body cbc_decrypt_body].
    set (x := u8 (Z.lxor (u8 c) prev)).
    set (out := sdes_encrypt_byte x K1 K2).
    assert (Hout : is_u8 out) by apply sdes_encrypt_byte_u8.
    rewrite (u8_id out Hout).
    assert (Hx : is_u8 x) by (unfold x; apply u8_range).
    unfold out at 1. rewrite (decrypt_encrypt x K1 K2 Hx H1 H2).
    unfold x. rewrite (u8_id c Hc).
    rewrite (u8_id (Z.lxor c prev)) by auto with u8.
    rewrite lxor_cancel_r, (u8_id c Hc).
    f_equal. apply IH. exact Hout.
Qed.

(** The two CTR loops are the same function. *)
Lemma ctr_loops_agree K1 K2 fi :
  forall ctr,
    while_fgetc (ctr_encrypt_body K1 K2) ctr fi
    = while_fgetc (ctr_decrypt_body K1 K2) ctr fi.
Proof.
  induction fi as [| c fi IH]; intros ctr.
  - reflexivity.
  - cbn [while_fgetc ctr_encrypt_body ctr_decrypt_body]. rewrite IH. reflexivity.
Qed.

Lemma ctr_loop_involutive K1 K2 fi :
  Forall is_u8 fi ->
  forall ctr,
    while_fgetc (ctr_encrypt_body K1 K2) ctr
      (while_fgetc (ctr_encrypt_body K1 K2) ctr fi) = fi.
Proof.
  intros Hfi. induction Hfi as [| c fi Hc Hfi IH]; intros ctr.
  - reflexivity.
  - cbn [while_fgetc ctr_encrypt_body].
    set (ks := sdes_encrypt_byte ctr K1 K2).
    assert (Hks : is_u8 ks) by apply sdes_encrypt_byte_u8.
    rewrite (u8_id c Hc).
    rewrite (u8_id (Z.lxor c ks)) by auto with u8.
    rewrite (u8_id (Z.lxor c ks)) by auto with u8.
    rewrite lxor_cancel_r, (u8_id c Hc).
    f_equal. apply IH.
Qed.

(** Byte [i] of the CTR output is masked with the encryption of the start
    counter advanced [i] times modulo 256. *)
Lemma ctr_loop_nth K1 K2 fi :
  Forall is_u8 fi ->
  forall ctr (i : nat), is_u8 ctr -> (i < List.length fi)%nat ->
    nth i (while_fgetc (ctr_encrypt_body K1 K2) ctr fi) 0
    = Z.lxor (nth i fi 0) (sdes_encrypt_byte (u8 (ctr + Z.of_nat i)) K1 K2).
Proof.
  intros Hfi. induction Hfi as [| c fi Hc Hfi IH]; intros ctr i Hctr Hi.
  - cbn in Hi. lia.
  - cbn [while_fgetc ctr_encrypt_body]. destruct i as [| i].
    + cbn [nth]. rewrite Z.add_0_r, (u8_id ctr Hctr), (u8_id c Hc).
      apply u8_id. apply lxor_u8; [exact Hc | apply sdes_encrypt_byte_u8].
    + cbn [nth]. cbn [List.length] in Hi.
      rewrite IH by (try apply u8_range; lia).
      do 2 f_equal. unfold u8.
      rewrite Zplus_mod_idemp_l. f_equal. lia.
Qed.

Lemma while_fgetc_length {S : Type} (body : S -> Z -> Z * S) fi :
  forall st, List.length (while_fgetc body st fi) = List.length fi.
Proof.
  induction fi as [| c fi IH]; intros st; cbn [while_fgetc].
  - reflexivity.
  - destruct (body st c) as [out st']. cbn [List.length]. now rewrite IH.
Qed.

End BmperFacts.

(** ** The byte code against the bit-string description *)

Module Refinement.
Import Sdes SdesFacts.

Lemma bits_eqb_eq (a b : Spec.bits) : Spec.bits_eqb a b = true -> a = b.
Proof.
  revert b. induction a as [| x a IH]; intros [| y b] H; cbn in H;
    try discriminate; [reflexivity |].
  apply andb_true_iff in H. destruct H as [Hxy Hab].
  apply Bool.eqb_prop in Hxy. subst y. f_equal. apply IH. exact Hab.
Qed.

Lemma of_to_bits8 x : is_u8 x -> Spec.of_bits (Spec.to_bits 8 x) = x.
Proof.
  intros Hx. apply Z.eqb_eq.
  apply (all_u8 (fun x => Spec.of_bits (Spec.to_bits 8 x) =? x));
    [vm_compute; reflexivity | exact Hx].
Qed.

Lemma ip_refines x :
  is_u8 x -> Spec.to_bits 8 (ip x) = Spec.select Spec.IP (Spec.to_bits 8 x).
Proof.
  intros Hx. apply bits_eqb_eq.
  apply (all_u8 (fun x => Spec.bits_eqb (Spec.to_bits 8 (ip x))
                            (Spec.select Spec.IP (Spec.to_bits 8 x))));
    [vm_compute; reflexivity | exact Hx].
Qed.

Lemma ip_inv_refines x :
  is_u8 x ->
  Spec.to_bits 8 (ip_inv x) = Spec.select Spec.IP_INV (Spec.to_bits 8 x).
Proof.
  intros Hx. apply bits_eqb_eq.
  apply (all_u8 (fun x => Spec.bits_eqb (Spec.to_bits 8 (ip_inv x))
                            (Spec.select Spec.IP_INV (Spec.to_bits 8 x))));
    [vm_compute; reflexivity | exact Hx].
Qed.

Lemma swap_halves_refines x :
  is_u8 x -> Spec.to_bits 8 (swap_halves x) = Spec.swap (Spec.to_bits 8 x).
Proof.
  intros Hx. apply bits_eqb_eq.
  apply (all_u8 (fun x => Spec.bits_eqb (Spec.to_bits 8 (swap_halves x))
                            (Spec.swap (Spec.to_bits 8 x))));
    [vm_compute; reflexivity | exact Hx].
Qed.

Lemma fk_refines x k :
  is_u8 x -> is_u8 k ->
  Spec.to_bits 8 (fk x k) = Spec.fk (Spec.to_bits 8 x) (Spec.to_bits 8 k).
Proof.
  intros Hx Hk. apply bits_eqb_eq.
  apply (all_u8_2 (fun x k => Spec.bits_eqb (Spec.to_bits 8 (fk x k))
                       (Spec.fk (Spec.to_bits 8 x) (Spec.to_bits 8 k))));
    [vm_compute; reflexivity | exact Hx | exact Hk].
Qed.

Lemma sdes_encrypt_byte_refines b K1 K2 :
  is_u8 b -> is_u8 K1 -> is_u8 K2 ->
  Spec.to_bits 8 (sdes_encrypt_byte b K1 K2)
  = Spec.encrypt (Spec.to_bits 8 b) (Spec.to_bits 8 K1) (Spec.to_bits 8 K2).
Proof.
  intros Hb H1 H2. unfold sdes_encrypt_byte, Spec.encrypt.
  rewrite ip_inv_refines by apply fk_u8.
  rewrite fk_refines by (try apply swap_halves_u8; assumption).
  rewrite swap_halves_refines by apply fk_u8.
  rewrite fk_refines by (try apply ip_u8; assumption).
  rewrite ip_refines by assumption.
  reflexivity.
Qed.

Lemma key_schedule_refines key :
  0 <= key < 1024 ->
  Spec.to_bits 8 (fst (sdes_generate_subkeys key))
  = fst (Spec.key_schedule (Spec.to_bits 10 key))
  /\ Spec.to_bits 8 (snd (sdes_generate_subkeys key))
     = snd (Spec.key_schedule (Spec.to_bits 10 key)).
Proof.
  intros Hk.
  assert (H : Spec.bits_eqb (Spec.to_bits 8 (fst (sdes_generate_subkeys key)))
                (fst (Spec.key_schedule (Spec.to_bits 10 key)))
              && Spec.bits_eqb (Spec.to_bits 8 (snd (sdes_generate_subkeys key)))
                   (snd (Spec.key_schedule (Spec.to_bits 10 key))) = true).
  { apply (all_below_spec 1024 (fun key =>
       Spec.bits_eqb (Spec.to_bits 8 (fst (sdes_generate_subkeys key)))
                (fst (Spec.key_schedule (Spec.to_bits 10 key)))
       && Spec.bits_eqb (Spec.to_bits 8 (snd (sdes_generate_subkeys key)))
                   (snd (Spec.key_schedule (Spec.to_bits 10 key)))));
      [vm_compute; reflexivity | change (Z.of_nat 1024) with 1024; exact Hk]. }
  apply andb_true_iff in H. destruct H as [A B].
  split; apply bits_eqb_eq; assumption.
Qed.

End Refinement.

(** ** The key parser *)

Module KeyTextFacts.
Import Sdes KeyText.

Lemma bit_char_value ch :
  is_bit_char ch = true ->
  Z.of_nat (nat_of_ascii ch) - 48 = Z.b2z (ch =? "1")%char.
Proof.
  unfold is_bit_char. intros H. apply orb_true_iff in H.
  destruct H as [H | H]; apply Ascii.eqb_eq in H; subst ch; reflexivity.
Qed.

Lemma blank_not_bit ch : is_bit_char ch = false -> valid_char ch = is_blank ch.
Proof. unfold valid_char. intros ->. reflexivity. Qed.

(** An invalid character anywhere on the line ends the parse with [-2]. *)
Lemma parse_loop_invalid s :
  forall n k,
    existsb (fun ch => negb (valid_char ch)) (line s) = true ->
    parse_loop s n k = inl (-2).
Proof.
  induction s as [| ch rest IH]; intros n k H; cbn [line] in H.
  - discriminate.
  - cbn [parse_loop].
    destruct (is_nul ch || is_lf ch || is_cr ch); [discriminate |].
    cbn [existsb] in H. unfold valid_char in H.
    destruct (is_bit_char ch); [apply IH; exact H |].
    destruct (is_blank ch); [apply IH; exact H | reflexivity].
Qed.

(** On a line of valid characters the loop counts every character and
    shifts in every significant bit. *)
Lemma parse_loop_valid s :
  forall n k,
    forallb valid_char (line s) = true ->
    parse_loop s n k
    = inr (n + Z.of_nat (List.length (line s)),
           shift_in k (significant (line s))).
Proof.
  induction s as [| ch rest IH]; intros n k H; cbn [line] in H |- *.
  - cbn. now rewrite Z.add_0_r.
  - cbn [parse_loop].
    destruct (is_nul ch || is_lf ch || is_cr ch).
    + cbn. now rewrite Z.add_0_r.
    + cbn [forallb] in H. apply andb_true_iff in H. destruct H as [Hch Hrest].
      unfold significant. cbn [filter List.length].
      destruct (is_bit_char ch) eqn:Hbit.
      * rewrite IH by exact Hrest. rewrite bit_char_value by exact Hbit.
        cbn [map]. unfold shift_in at 2. cbn [fold_left].
        f_equal. f_equal. lia.
      * rewrite blank_not_bit in Hch by exact Hbit. rewrite Hch.
        rewrite IH by exact Hrest. f_equal. f_equal. lia.
Qed.

Lemma shift_bit (k : Z) (b : bool) :
  0 <= k -> Z.lor (Z.shiftl k 1) (Z.b2z b) = 2 * k + Z.b2z b.
Proof.
  intros Hk. rewrite Z.shiftl_mul_pow2 by lia. change (2 ^ 1) with 2.
  destruct b; cbn [Z.b2z].
  - destruct k as [| q | q]; [reflexivity | | lia].
    rewrite Z.mul_comm. reflexivity.
  - rewrite Z.lor_0_r. lia.
Qed.

Lemma shift_in_mod bs :
  forall k, shift_in (u16 k) bs = u16 (of_bits_from k bs).
Proof.
  induction bs as [| b bs IH]; intros k.
  - reflexivity.
  - unfold shift_in, of_bits_from. cbn [fold_left].
    fold (shift_in (u16 (Z.lor (Z.shiftl (u16 k) 1) (Z.b2z b))) bs).
    fold (of_bits_from (2 * k + Z.b2z b) bs).
    assert (E : u16 (Z.lor (Z.shiftl (u16 k) 1) (Z.b2z b)) = u16 (2 * k + Z.b2z b)).
    { rewrite shift_bit by (unfold u16; apply Z.mod_pos_bound; lia).
      unfold u16. rewrite Zplus_mod, Zmult_mod_idemp_r, <- Zplus_mod. reflexivity. }
    rewrite E. apply IH.
Qed.

Lemma of_bits_from_app bs :
  forall k, of_bits_from k bs = k * 2 ^ Z.of_nat (List.length bs) + Spec.of_bits bs.
Proof.
  unfold Spec.of_bits. fold (of_bits_from 0 bs).
  induction bs as [| b bs IH]; intros k.
  - cbn. lia.
  - unfold of_bits_from. cbn [fold_left].
    fold (of_bits_from (2 * k + Z.b2z b) bs). fold (of_bits_from (2 * 0 + Z.b2z b) bs).
    rewrite IH, (IH (2 * 0 + Z.b2z b)).
    cbn [List.length]. rewrite Nat2Z.inj_succ, Z.pow_succ_r by lia. ring.
Qed.

Lemma of_bits_app (a b : Spec.bits) :
  Spec.of_bits (a ++ b)
  = Spec.of_bits a * 2 ^ Z.of_nat (List.length b) + Spec.of_bits b.
Proof.
  unfold Spec.of_bits at 1. rewrite fold_left_app.
  fold (Spec.of_bits a). fold (of_bits_from (Spec.of_bits a) b).
  apply of_bits_from_app.
Qed.

Lemma of_bits_range (bs : Spec.bits) :
  0 <= Spec.of_bits bs < 2 ^ Z.of_nat (List.length bs).
Proof.
  induction bs as [| b bs IH] using rev_ind.
  - cbn. lia.
  - rewrite of_bits_app, length_app. cbn [List.length].
    rewrite Nat2Z.inj_add. change (Z.of_nat 1) with 1.
    rewrite Z.pow_add_r by lia. change (2 ^ 1) with 2.
    change (Spec.of_bits [b]) with (2 * 0 + Z.b2z b).
    destruct b; cbn [Z.b2z]; lia.
Qed.

(** Only the last [n] bits survive a reduction modulo [2 ^ n]. *)
Lemma of_bits_mod_lastn (n : nat) (bs : Spec.bits) :
  (n <= List.length bs)%nat ->
  Spec.of_bits bs mod 2 ^ Z.of_nat n = Spec.of_bits (lastn n bs).
Proof.
  intros Hn. unfold lastn.
  rewrite <- (firstn_skipn (List.length bs - n) bs) at 1.
  rewrite of_bits_app.
  assert (L : List.length (skipn (List.length bs - n) bs) = n)
    by (rewrite length_skipn; lia).
  pose proof (of_bits_range (skipn (List.length bs - n) bs)) as R.
  rewrite L in *.
  rewrite Z.add_comm, Z.mod_add by lia.
  apply Z.mod_small. exact R.
Qed.

Lemma low10_of_u16 v : Z.land (u16 v) 1023 = v mod 1024.
Proof.
  change 1023 with (Z.ones 10). rewrite Z.land_ones by lia.
  unfold u16. change (2 ^ Z.of_nat 10) with 1024. change (2 ^ 10) with 1024.
  apply Z.mod_mod_divide. exists 64. reflexivity.
Qed.

(** The outcome of the parser on a line of valid characters. *)
Lemma sdes_parse_key10_bits_valid s cell :
  forallb valid_char (line s) = true ->
  sdes_parse_key10_bits (Some s) (Some cell)
  = if Z.of_nat (List.length (line s)) <? 10 then (-3, Some cell)
    else (0, Some (Spec.of_bits (significant (line s)) mod 1024)).
Proof.
  intros H. unfold sdes_parse_key10_bits.
  rewrite parse_loop_valid by exact H. rewrite Z.add_0_l.
  destruct (Z.of_nat (List.length (line s)) <? 10); [reflexivity |].
  change 0 with (u16 0) at 2. rewrite shift_in_mod, low10_of_u16.
  rewrite of_bits_from_app. reflexivity.
Qed.

Lemma forallb_not_existsb {A : Type} (p : A -> bool) (l : list A) :
  existsb (fun x => negb (p x)) l = false -> forallb p l = true.
Proof.
  induction l as [| x l IH]; cbn [existsb forallb]; intros H.
  - reflexivity.
  - apply orb_false_iff in H. destruct H as [Hx Hl].
    apply negb_false_iff in Hx. rewrite Hx. apply IH. exact Hl.
Qed.

Lemma sdes_parse_key10_bits_invalid s cell :
  existsb (fun ch => negb (valid_char ch)) (line s) = true ->
  sdes_parse_key10_bits (Some s) (Some cell) = (-2, Some cell).
Proof.
  intros H. unfold sdes_parse_key10_bits.
  rewrite parse_loop_invalid by exact H. reflexivity.
Qed.

Lemma significant_length l : (List.length (significant l) <= List.length l)%nat.
Proof.
  unfold significant. rewrite length_map. apply filter_length_le.
Qed.

End KeyTextFacts.

(** * Main results *)

Import Sdes Bmper KeyText.

(** ** Block cipher and key schedule *)

(** C1. Involution under scheduled subkeys: for every 10-bit master key [k]
    and every byte [b], with [(K1, K2)] the subkeys written by
    [sdes_generate_subkeys k], decrypting the encryption of [b] gives [b]
    back. *)
Theorem involution_scheduled_keys (k b K1 K2 : Z) :
  0 <= k < 1024 -> is_u8 b ->
  sdes_generate_subkeys k = (K1, K2) ->
  sdes_decrypt_byte (sdes_encrypt_byte b K1 K2) K1 K2 = b.
Proof.
  intros _ Hb HK.
  destruct (SdesFacts.sdes_generate_subkeys_u8 k) as [H1 H2].
  rewrite HK in H1, H2. cbn [fst snd] in H1, H2.
  apply SdesFacts.decrypt_encrypt; assumption.
Qed.

Lemma involution_scheduled_keys_witness :
  sdes_decrypt_byte (sdes_encrypt_byte 0 164 67) 164 67 = 0.
Proof.
  apply (involution_scheduled_keys 642 0 164 67);
    [lia | unfold is_u8; lia | vm_compute; reflexivity].
Defined.

(** C2. Structure of the block transform: on 8-bit blocks and subkeys,
    [sdes_encrypt_byte] is IP, fk with K1, swap of the nibbles, fk with K2,
    IP-inverse on the bit string of the block, [sdes_decrypt_byte] is the
    same sequence with K2 first and K1 second, and [fk] is the round
    function of the description (EP, XOR with the subkey, S0 and S1 with
    row = bit0 bit3 and column = bit1 bit2, P4, XOR into the high nibble,
    low nibble unchanged). *)
Theorem block_cipher_refines_spec (b K1 K2 : Z) :
  is_u8 b -> is_u8 K1 -> is_u8 K2 ->
  let B := Spec.to_bits 8 in
  B (sdes_encrypt_byte b K1 K2) = Spec.encrypt (B b) (B K1) (B K2)
  /\ B (sdes_decrypt_byte b K1 K2) = Spec.decrypt (B b) (B K1) (B K2)
  /\ sdes_encrypt_byte b K1 K2 = Spec.of_bits (Spec.encrypt (B b) (B K1) (B K2))
  /\ sdes_decrypt_byte b K1 K2 = Spec.of_bits (Spec.decrypt (B b) (B K1) (B K2))
  /\ B (fk b K1) = Spec.fk (B b) (B K1).
Proof.
  intros Hb H1 H2 B. subst B.
  assert (E : Spec.to_bits 8 (sdes_encrypt_byte b K1 K2)
              = Spec.encrypt (Spec.to_bits 8 b) (Spec.to_bits 8 K1) (Spec.to_bits 8 K2))
    by (apply Refinement.sdes_encrypt_byte_refines; assumption).
  assert (D : Spec.to_bits 8 (sdes_decrypt_byte b K1 K2)
              = Spec.decrypt (Spec.to_bits 8 b) (Spec.to_bits 8 K1) (Spec.to_bits 8 K2)).
  { rewrite SdesFacts.sdes_decrypt_byte_swap.
    rewrite Refinement.sdes_encrypt_byte_refines by assumption.
    unfold Spec.decrypt, Spec.encrypt. reflexivity. }
  repeat split.
  - exact E.
  - exact D.
  - rewrite <- E. symmetry. apply Refinement.of_to_bits8.
    apply SdesFacts.sdes_encrypt_byte_u8.
  - rewrite <- D. symmetry. apply Refinement.of_to_bits8.
    apply SdesFacts.sdes_decrypt_byte_u8.
  - apply Refinement.fk_refines; assumption.
Qed.

Lemma block_cipher_refines_spec_witness :
  sdes_encrypt_byte 0 164 67
  = Spec.of_bits (Spec.encrypt (Spec.to_bits 8 0) (Spec.to_bits 8 164)
                               (Spec.to_bits 8 67)).
Proof.
  apply (block_cipher_refines_spec 0 164 67); unfold is_u8; lia.
Defined.

(** C3. Key schedule: for every 10-bit master key, K1 is P8 of the two
    5-bit halves of P10(key), each rotated left by 1; K2 is P8 of the same
    halves rotated left by 2 more. *)
Theorem key_schedule_refines_spec (key : Z) :
  0 <= key < 1024 ->
  Spec.to_bits 8 (fst (sdes_generate_subkeys key))
  = fst (Spec.key_schedule (Spec.to_bits 10 key))
  /\ Spec.to_bits 8 (snd (sdes_generate_subkeys key))
     = snd (Spec.key_schedule (Spec.to_bits 10 key))
  /\ sdes_generate_subkeys key
     = (Spec.of_bits (fst (Spec.key_schedule (Spec.to_bits 10 key))),
        Spec.of_bits (snd (Spec.key_schedule (Spec.to_bits 10 key)))).
Proof.
  intros Hk.
  destruct (Refinement.key_schedule_refines key Hk) as [A B].
  destruct (SdesFacts.sdes_generate_subkeys_u8 key) as [U1 U2].
  split; [exact A | split; [exact B |]].
  rewrite <- A, <- B.
  rewrite !Refinement.of_to_bits8 by assumption.
  apply surjective_pairing.
Qed.

Lemma key_schedule_refines_spec_witness :
  sdes_generate_subkeys 642
  = (Spec.of_bits (fst (Spec.key_schedule (Spec.to_bits 10 642))),
     Spec.of_bits (snd (Spec.key_schedule (Spec.to_bits 10 642)))).
Proof.
  apply (key_schedule_refines_spec 642). lia.
Defined.

(** C4 as stated fails: the master key 1010000010 does not yield the pair
    (10100100, 10010100). *)
Lemma kat_subkeys_claimed_pair_fails :
  sdes_generate_subkeys (Spec.of_bits (bit_string "1010000010"))
  <> (Spec.of_bits (bit_string "10100100"), Spec.of_bits (bit_string "10010100")).
Proof. vm_compute. discriminate. Qed.

(** C4, amended. Known-answer test: the master key 1010000010 (0x282)
    yields K1 = 10100100 (0xA4) and K2 = 01000011 (0x43). *)
Theorem kat_subkeys :
  sdes_generate_subkeys (Spec.of_bits (bit_string "1010000010"))
  = (Spec.of_bits (bit_string "10100100"), Spec.of_bits (bit_string "01000011"))
  /\ Spec.of_bits (bit_string "1010000010") = 642
  /\ sdes_generate_subkeys 642 = (164, 67).
Proof. vm_compute. repeat split. Qed.

(** C10. For every pair of 8-bit subkeys, encryption after decryption is the
    identity as well, both maps are bijections of the bytes, and [fk] is its
    own inverse under a fixed subkey. *)
Theorem encrypt_decrypt_bijection (K1 K2 : Z) :
  is_u8 K1 -> is_u8 K2 ->
  (forall b, is_u8 b ->
     sdes_encrypt_byte (sdes_decrypt_byte b K1 K2) K1 K2 = b
     /\ sdes_decrypt_byte (sdes_encrypt_byte b K1 K2) K1 K2 = b)
  /\ (forall b, is_u8 (sdes_encrypt_byte b K1 K2)
                /\ is_u8 (sdes_decrypt_byte b K1 K2))
  /\ (forall b1 b2, is_u8 b1 -> is_u8 b2 ->
        sdes_encrypt_byte b1 K1 K2 = sdes_encrypt_byte b2 K1 K2 -> b1 = b2)
  /\ (forall b1 b2, is_u8 b1 -> is_u8 b2 ->
        sdes_decrypt_byte b1 K1 K2 = sdes_decrypt_byte b2 K1 K2 -> b1 = b2)
  /\ (forall c, is_u8 c -> exists b, is_u8 b /\ sdes_encrypt_byte b K1 K2 = c)
  /\ (forall c, is_u8 c -> exists b, is_u8 b /\ sdes_decrypt_byte b K1 K2 = c)
  /\ (forall x, is_u8 x -> fk (fk x K1) K1 = x /\ fk (fk x K2) K2 = x).
Proof.
  intros H1 H2.
  split; [| split; [| split; [| split; [| split; [| split]]]]].
  - intros b Hb. split.
    + apply SdesFacts.encrypt_decrypt; assumption.
    + apply SdesFacts.decrypt_encrypt; assumption.
  - intros b. split.
    + apply SdesFacts.sdes_encrypt_byte_u8.
    + apply SdesFacts.sdes_decrypt_byte_u8.
  - intros b1 b2 Hb1 Hb2.
    apply SdesFacts.sdes_encrypt_byte_inj; assumption.
  - intros b1 b2 Hb1 Hb2. rewrite !SdesFacts.sdes_decrypt_byte_swap.
    apply SdesFacts.sdes_encrypt_byte_inj; assumption.
  - intros c Hc. exists (sdes_decrypt_byte c K1 K2). split.
    + apply SdesFacts.sdes_decrypt_byte_u8.
    + apply SdesFacts.encrypt_decrypt; assumption.
  - intros c Hc. exists (sdes_encrypt_byte c K1 K2). split.
    + apply SdesFacts.sdes_encrypt_byte_u8.
    + apply SdesFacts.decrypt_encrypt; assumption.
  - intros x Hx. split; apply SdesFacts.fk_involutive; assumption.
Qed.

Lemma encrypt_decrypt_bijection_witness :
  sdes_encrypt_byte (sdes_decrypt_byte 5 164 67) 164 67 = 5.
Proof.
  assert (H1 : is_u8 164) by (unfold is_u8; lia).
  assert (H2 : is_u8 67) by (unfold is_u8; lia).
  assert (H5 : is_u8 5) by (unfold is_u8; lia).
  exact (proj1 (proj1 (encrypt_decrypt_bijection 164 67 H1 H2) 5 H5)).
Defined.

(** ** Chaining modes *)

(** C5. CBC round trip: from the same 8-bit IV and under any 8-bit subkey
    pair, the CBC decrypt loop applied to the output of the CBC encrypt loop
    gives the input bytes back, for every byte sequence, the empty one
    included. *)
Theorem cbc_round_trip (K1 K2 iv do_encrypt : Z) (fi : list Z) :
  is_u8 K1 -> is_u8 K2 -> is_u8 iv -> Forall is_u8 fi -> do_encrypt <> 0 ->
  process_pixels 0 MODE_CBC K1 K2 iv
    (process_pixels do_encrypt MODE_CBC K1 K2 iv fi) = fi.
Proof.
  intros H1 H2 Hiv Hfi He. unfold process_pixels.
  apply Z.eqb_neq in He. rewrite He. rewrite Z.eqb_refl. cbn [negb].
  apply BmperFacts.cbc_loops_round_trip; assumption.
Qed.

Lemma cbc_round_trip_witness :
  process_pixels 0 MODE_CBC 164 67 1
    (process_pixels 1 MODE_CBC 164 67 1 [183; 183; 0]) = [183; 183; 0]
  /\ process_pixels 0 MODE_CBC 164 67 1
       (process_pixels 1 MODE_CBC 164 67 1 []) = [].
Proof.
  assert (H1 : is_u8 164) by (unfold is_u8; lia).
  assert (H2 : is_u8 67) by (unfold is_u8; lia).
  assert (Hiv : is_u8 1) by (unfold is_u8; lia).
  split.
  - apply (cbc_round_trip 164 67 1 1 [183; 183; 0] H1 H2 Hiv);
      [repeat constructor; unfold is_u8; lia | lia].
  - apply (cbc_round_trip 164 67 1 1 [] H1 H2 Hiv); [constructor | lia].
Defined.

(** C6. CTR is its own inverse: applying the CTR loop twice from the same
    start counter gives the input back, in either direction; the encrypt and
    decrypt loops compute the same function; byte [i] is masked with the
    encryption of [(ctr0 + i) mod 256], so the counter wraps at 256. *)
Theorem ctr_self_inverse (K1 K2 ctr0 : Z) (fi : list Z) :
  is_u8 ctr0 -> Forall is_u8 fi ->
  (forall e e',
     process_pixels e MODE_CTR K1 K2 ctr0
       (process_pixels e' MODE_CTR K1 K2 ctr0 fi) = fi)
  /\ (forall e,
        process_pixels e MODE_CTR K1 K2 ctr0 fi
        = process_pixels 0 MODE_CTR K1 K2 ctr0 fi)
  /\ (forall e (i : nat), (i < List.length fi)%nat ->
        nth i (process_pixels e MODE_CTR K1 K2 ctr0 fi) 0
        = Z.lxor (nth i fi 0)
            (sdes_encrypt_byte ((ctr0 + Z.of_nat i) mod 256) K1 K2)).
Proof.
  intros Hctr Hfi.
  assert (D : forall e l, process_pixels e MODE_CTR K1 K2 ctr0 l
                          = while_fgetc (ctr_encrypt_body K1 K2) ctr0 l).
  { intros e l. unfold process_pixels. destruct (negb (e =? 0)).
    - reflexivity.
    - symmetry. apply BmperFacts.ctr_loops_agree. }
  split; [| split].
  - intros e e'. rewrite !D. apply BmperFacts.ctr_loop_involutive. exact Hfi.
  - intros e. rewrite !D. reflexivity.
  - intros e i Hi. rewrite D.
    apply BmperFacts.ctr_loop_nth; assumption.
Qed.

Lemma ctr_self_inverse_witness :
  process_pixels 0 MODE_CTR 164 67 255
    (process_pixels 1 MODE_CTR 164 67 255 [1; 2; 3]) = [1; 2; 3].
Proof.
  assert (Hc : is_u8 255) by (unfold is_u8; lia).
  assert (Hfi : Forall is_u8 [1; 2; 3])
    by (repeat constructor; unfold is_u8; lia).
  exact (proj1 (ctr_self_inverse 164 67 255 [1; 2; 3] Hc Hfi) 0 1).
Defined.

(** C9 as stated fails: under the subkeys (0xA4, 0x43), with the nonzero IV
    1 and the plaintext 183, 183, the second CBC byte equals the second ECB
    byte. *)
Lemma mode_divergence_fails :
  is_u8 164 /\ is_u8 67 /\ is_u8 1 /\ 1 <> 0 /\ is_u8 183
  /\ ~ (nth 1 (process_pixels 1 MODE_CBC 164 67 1 [183; 183]) 0
        <> nth 1 (process_pixels 1 MODE_ECB 164 67 1 [183; 183]) 0).
Proof.
  unfold is_u8. repeat split; try lia.
  intros H. apply H. vm_compute. reflexivity.
Qed.

(** C9, amended. Mode divergence: for every 8-bit subkey pair, every 8-bit
    IV and every plaintext whose first two bytes are equal, the second CBC
    byte differs from the second ECB byte exactly when the first CBC
    ciphertext byte, the encryption of the first plaintext byte XOR the IV,
    is not zero. *)
Theorem mode_divergence_iff (K1 K2 iv p : Z) (rest : list Z) :
  is_u8 K1 -> is_u8 K2 -> is_u8 iv -> is_u8 p ->
  nth 0 (process_pixels 1 MODE_CBC K1 K2 iv (p :: p :: rest)) 0
  = sdes_encrypt_byte (Z.lxor p iv) K1 K2
  /\ (nth 1 (process_pixels 1 MODE_CBC K1 K2 iv (p :: p :: rest)) 0
        <> nth 1 (process_pixels 1 MODE_ECB K1 K2 iv (p :: p :: rest)) 0
      <-> sdes_encrypt_byte (Z.lxor p iv) K1 K2 <> 0).
Proof.
  intros H1 H2 Hiv Hp. unfold process_pixels.
  change (negb (1 =? 0)) with true. cbv iota.
  cbn [while_fgetc cbc_encrypt_body ecb_encrypt_body nth].
  rewrite (u8_id p Hp).
  rewrite (u8_id (Z.lxor p iv)) by (apply lxor_u8; assumption).
  set (c1 := sdes_encrypt_byte (Z.lxor p iv) K1 K2).
  assert (Hc1 : is_u8 c1) by apply SdesFacts.sdes_encrypt_byte_u8.
  rewrite (u8_id (Z.lxor p c1)) by (apply lxor_u8; assumption).
  split; [reflexivity |].
  split.
  - intros Hne Hz. apply Hne. rewrite Hz, Z.lxor_0_r. reflexivity.
  - intros Hne Heq. apply Hne.
    apply SdesFacts.sdes_encrypt_byte_inj in Heq;
      [| apply lxor_u8; assumption | assumption | assumption | assumption].
    apply (BmperFacts.lxor_eq_l p c1). exact Heq.
Qed.

Lemma mode_divergence_iff_witness :
  nth 1 (process_pixels 1 MODE_CBC 164 67 1 [0; 0]) 0
  <> nth 1 (process_pixels 1 MODE_ECB 164 67 1 [0; 0]) 0.
Proof.
  assert (H1 : is_u8 164) by (unfold is_u8; lia).
  assert (H2 : is_u8 67) by (unfold is_u8; lia).
  assert (Hiv : is_u8 1) by (unfold is_u8; lia).
  assert (Hp : is_u8 0) by (unfold is_u8; lia).
  apply (proj2 (mode_divergence_iff 164 67 1 0 [] H1 H2 Hiv Hp)).
  vm_compute. discriminate.
Defined.

(** ** Key text *)

(** C7 as stated fails: the key text "12345" is rejected for its invalid
    characters with [-2], not as too short with [-3]. *)
Lemma parse_12345_is_not_too_short :
  fst (sdes_parse_key10_bits (Some "12345"%string) (Some 0)) <> -3
  /\ sdes_parse_key10_bits (Some "12345"%string) (Some 0) = (-2, Some 0).
Proof. vm_compute. split; [discriminate | reflexivity]. Qed.

(** C7, amended. Key parsing errors, on the line of the key text (its
    characters before the first NUL, line feed or carriage return):
    a character other than '0', '1', space or tab gives [-2] and leaves the
    output cell alone; a line of valid characters with fewer than 10
    characters gives [-3]; a line of valid characters with at least 10
    significant bits gives [0]; [-3] is only returned when fewer than 10
    significant bits are present.  "12345" and "10x0000000" both give
    [-2]. *)
Theorem parse_key_errors (s : string) (cell : Z) :
  (existsb (fun ch => negb (valid_char ch)) (line s) = true ->
     sdes_parse_key10_bits (Some s) (Some cell) = (-2, Some cell))
  /\ (forallb valid_char (line s) = true ->
      (List.length (line s) < 10)%nat ->
      sdes_parse_key10_bits (Some s) (Some cell) = (-3, Some cell))
  /\ (forallb valid_char (line s) = true ->
      (10 <= List.length (significant (line s)))%nat ->
      fst (sdes_parse_key10_bits (Some s) (Some cell)) = 0)
  /\ (fst (sdes_parse_key10_bits (Some s) (Some cell)) = -3 ->
      (List.length (significant (line s)) < 10)%nat)
  /\ sdes_parse_key10_bits (Some "12345"%string) (Some cell) = (-2, Some cell)
  /\ sdes_parse_key10_bits (Some "10x0000000"%string) (Some cell)
     = (-2, Some cell).
Proof.
  pose proof (KeyTextFacts.significant_length (line s)) as Hsig.
  split; [| split; [| split; [| split; [| split]]]].
  - apply KeyTextFacts.sdes_parse_key10_bits_invalid.
  - intros Hv Hlen. rewrite KeyTextFacts.sdes_parse_key10_bits_valid by exact Hv.
    destruct (Z.ltb_spec (Z.of_nat (List.length (line s))) 10); [reflexivity | lia].
  - intros Hv Hlen. rewrite KeyTextFacts.sdes_parse_key10_bits_valid by exact Hv.
    destruct (Z.ltb_spec (Z.of_nat (List.length (line s))) 10); [lia | reflexivity].
  - destruct (existsb (fun ch => negb (valid_char ch)) (line s)) eqn:Hinv.
    + rewrite KeyTextFacts.sdes_parse_key10_bits_invalid by exact Hinv.
      cbn [fst]. discriminate.
    + apply KeyTextFacts.forallb_not_existsb in Hinv.
      rewrite KeyTextFacts.sdes_parse_key10_bits_valid by exact Hinv.
      destruct (Z.ltb_spec (Z.of_nat (List.length (line s))) 10);
        cbn [fst]; [intros _; lia | discriminate].
  - apply KeyTextFacts.sdes_parse_key10_bits_invalid. reflexivity.
  - apply KeyTextFacts.sdes_parse_key10_bits_invalid. reflexivity.
Qed.

Lemma parse_key_errors_witness :
  sdes_parse_key10_bits (Some "101"%string) (Some 7) = (-3, Some 7)
  /\ sdes_parse_key10_bits (Some "10x0000000"%string) (Some 7) = (-2, Some 7)
  /\ fst (sdes_parse_key10_bits (Some "1010000010"%string) (Some 7)) = 0.
Proof.
  split; [| split].
  - apply (proj1 (proj2 (parse_key_errors "101" 7)));
      [reflexivity | cbn; lia].
  - apply (proj1 (parse_key_errors "10x0000000" 7)). reflexivity.
  - apply (proj1 (proj2 (proj2 (parse_key_errors "1010000010" 7))));
      [reflexivity | cbn; lia].
Defined.

(** The length test counts blanks as well: six bits spread over eleven
    characters are accepted. *)
Example parse_counts_blanks :
  sdes_parse_key10_bits (Some "1 1 1 1 1 1"%string) (Some 0) = (0, Some 63).
Proof. vm_compute. reflexivity. Qed.

(** The parser reads one line: what follows a line feed is never seen. *)
Example parse_stops_at_line_feed :
  sdes_parse_key10_bits (Some (String.append "1010000010" (String "010" "xyz")))
    (Some 0) = (0, Some 642).
Proof. vm_compute. reflexivity. Qed.

(** C8 as stated fails: on the valid key text "10100000101", with 11
    significant bits, the parsed key is not the value of the first 10. *)
Lemma parse_key_is_not_first10 :
  forallb valid_char (line "10100000101") = true
  /\ (10 < List.length (significant (line "10100000101")))%nat
  /\ sdes_parse_key10_bits (Some "10100000101"%string) (Some 0)
     <> (0, Some (Spec.of_bits (firstn 10 (significant (line "10100000101")))))
  /\ sdes_parse_key10_bits (Some "10100000101"%string) (Some 0)
     <> sdes_parse_key10_bits (Some "10100000100"%string) (Some 0).
Proof.
  split; [reflexivity | split; [cbn; lia | split]]; vm_compute; discriminate.
Qed.

(** C8, amended. For every valid key text with at least 10 significant bits,
    the parser succeeds and the key is the value of the last 10 significant
    bits, read left to right, most significant first: the low 10 bits of the
    whole bit string. *)
Theorem parse_key_last10 (s : string) (cell : Z) :
  forallb valid_char (line s) = true ->
  (10 <= List.length (significant (line s)))%nat ->
  sdes_parse_key10_bits (Some s) (Some cell)
  = (0, Some (Spec.of_bits (lastn 10 (significant (line s)))))
  /\ Spec.of_bits (lastn 10 (significant (line s)))
     = Spec.of_bits (significant (line s)) mod 1024.
Proof.
  intros Hv Hlen.
  pose proof (KeyTextFacts.significant_length (line s)) as Hsig.
  pose proof (KeyTextFacts.of_bits_mod_lastn 10 (significant (line s)) Hlen) as E.
  change (2 ^ Z.of_nat 10) with 1024 in E.
  split; [| symmetry; exact E].
  rewrite KeyTextFacts.sdes_parse_key10_bits_valid by exact Hv.
  destruct (Z.ltb_spec (Z.of_nat (List.length (line s))) 10); [lia |].
  rewrite E. reflexivity.
Qed.

Lemma parse_key_last10_witness :
  sdes_parse_key10_bits (Some "10100000101"%string) (Some 0)
  = (0, Some (Spec.of_bits (lastn 10 (significant (line "10100000101"))))).
Proof.
  apply (parse_key_last10 "10100000101" 0); [reflexivity | cbn; lia].
Defined.
(** * Further properties *)

(** ** The bit permutation engine *)

Module PermuteFacts.
Import Sdes KeyText.

Lemma land_1_testbit (a : Z) : Z.land a 1 = Z.b2z (Z.testbit a 0).
Proof.
  change 1 with (Z.ones 1). rewrite Z.land_ones by lia.
  change (2 ^ 1) with 2. symmetry. apply Z.bit0_mod.
Qed.

Lemma get_bit_testbit (x t nbits : Z) :
  get_bit x t nbits = Z.b2z (Z.testbit x (nbits - t)).
Proof.
  unfold get_bit. rewrite land_1_testbit.
  rewrite Z.shiftr_spec by lia. reflexivity.
Qed.

Lemma land_b2z_1 (b : bool) : Z.land (Z.b2z b) 1 = Z.b2z b.
Proof. destruct b; reflexivity. Qed.

(** The loop shifts in, one after the other, the bits the first [len]
    table entries name. *)
Lemma permute_loop_shift_in (inp inbits : Z) (len : nat) :
  forall tab out,
    permute_loop inp tab len inbits out
    = shift_in out
        (map (fun t => Z.testbit inp (inbits - t)) (firstn len tab)).
Proof.
  induction len as [| len IH]; intros tab out.
  - destruct tab; reflexivity.
  - destruct tab as [| t tab]; [reflexivity |].
    cbn [permute_loop firstn map]. rewrite IH.
    rewrite get_bit_testbit, land_b2z_1. reflexivity.
Qed.

Lemma shift_in_0 (bs : Spec.bits) : shift_in 0 bs = u16 (Spec.of_bits bs).
Proof.
  change 0 with (u16 0) at 1. rewrite KeyTextFacts.shift_in_mod.
  rewrite KeyTextFacts.of_bits_from_app. reflexivity.
Qed.

Lemma of_bits_u16 (bs : Spec.bits) :
  (List.length bs <= 16)%nat -> u16 (Spec.of_bits bs) = Spec.of_bits bs.
Proof.
  intros H. unfold u16. apply Z.mod_small.
  pose proof (KeyTextFacts.of_bits_range bs) as R.
  assert (2 ^ Z.of_nat (List.length bs) <= 2 ^ 16)
    by (apply Z.pow_le_mono_r; lia).
  change (2 ^ 16) with 65536 in *. lia.
Qed.

Lemma permute_value (inp inbits : Z) (tab : list Z) (len : nat) :
  (len <= 16)%nat ->
  permute inp tab len inbits
  = Spec.of_bits (map (fun t => Z.testbit inp (inbits - t)) (firstn len tab)).
Proof.
  intros H. unfold permute. rewrite permute_loop_shift_in, shift_in_0.
  apply of_bits_u16. rewrite length_map, length_firstn. lia.
Qed.


Lemma to_bits_length (w : nat) (x : Z) : List.length (Spec.to_bits w x) = w.
Proof. unfold Spec.to_bits. now rewrite length_map, length_seq. Qed.


(** Only the [w] low bits of a value show in its [w]-bit string. *)
Lemma to_bits_mod (w : nat) (x : Z) :
  Spec.to_bits w (x mod 2 ^ Z.of_nat w) = Spec.to_bits w x.
Proof.
  unfold Spec.to_bits. apply map_ext_in. intros i Hi.
  apply in_seq in Hi. apply Z.mod_pow2_bits_low. lia.
Qed.

End PermuteFacts.

(** ** Rotation *)

Module RolFacts.
Import Sdes.

Lemma mask_ones (width : Z) :
  0 <= width <= 16 -> u16 (Z.shiftl 1 width - 1) = Z.ones width.
Proof.
  intros H. rewrite Z.shiftl_1_l, Z.ones_equiv, <- Z.sub_1_r.
  unfold u16. apply Z.mod_small.
  assert (0 < 2 ^ width) by (apply Z.pow_pos_nonneg; lia).
  assert (2 ^ width <= 2 ^ 16) by (apply Z.pow_le_mono_r; lia).
  change (2 ^ 16) with 65536 in *. lia.
Qed.

Lemma rol_unfold (val sh width : Z) :
  0 <= width <= 16 ->
  rol val sh width
  = Z.land (Z.lor (Z.shiftl (val mod 2 ^ width) sh)
                  (Z.shiftr (val mod 2 ^ width) (width - sh)))
           (Z.ones width).
Proof.
  intros H. unfold rol. rewrite (mask_ones width H).
  rewrite (Z.land_ones val) by lia.
  rewrite (Z.land_ones _ width) by lia.
  unfold u16. apply Z.mod_small.
  assert (0 < 2 ^ width) by (apply Z.pow_pos_nonneg; lia).
  assert (2 ^ width <= 2 ^ 16) by (apply Z.pow_le_mono_r; lia).
  change (2 ^ 16) with 65536 in *.
  pose proof (Z.mod_pos_bound
    (Z.lor (Z.shiftl (val mod 2 ^ width) sh)
           (Z.shiftr (val mod 2 ^ width) (width - sh))) (2 ^ width)).
  lia.
Qed.

Lemma rol_range (val sh width : Z) :
  0 <= width <= 16 -> 0 <= rol val sh width < 2 ^ width.
Proof.
  intros H. rewrite rol_unfold by exact H. rewrite Z.land_ones by lia.
  apply Z.mod_pos_bound. apply Z.pow_pos_nonneg; lia.
Qed.

Lemma rol_bit (val sh width i : Z) :
  0 < width <= 16 -> 0 <= sh <= width -> 0 <= i < width ->
  Z.testbit (rol val sh width) i = Z.testbit val ((i - sh) mod width).
Proof.
  intros Hw Hs Hi. rewrite rol_unfold by lia.
  rewrite Z.land_spec, Z.ones_spec_low, andb_true_r by lia.
  rewrite Z.lor_spec, Z.shiftl_spec, Z.shiftr_spec by lia.
  destruct (Z_lt_le_dec i sh) as [Hlt | Hge].
  - rewrite (Z.testbit_neg_r _ (i - sh)) by lia. cbn [orb].
    rewrite Z.mod_pow2_bits_low by lia.
    f_equal. apply Z.mod_unique with (q := -1); lia.
  - rewrite (Z.mod_pow2_bits_high _ _ (i + (width - sh))) by lia.
    rewrite orb_false_r, Z.mod_pow2_bits_low by lia.
    f_equal. symmetry. apply Z.mod_small. lia.
Qed.

Lemma bits_above (x w n : Z) :
  0 <= w -> 0 <= x < 2 ^ w -> w <= n -> Z.testbit x n = false.
Proof.
  intros Hw Hx Hn. rewrite <- (Z.mod_small x (2 ^ w)) by exact Hx.
  apply Z.mod_pow2_bits_high. lia.
Qed.

Lemma rol_rol (val a b width : Z) :
  0 < width <= 16 -> 0 <= a -> 0 <= b -> a + b <= width ->
  rol (rol val a width) b width = rol val (a + b) width.
Proof.
  intros Hw Ha Hb Hab. apply Z.bits_inj'. intros n Hn.
  destruct (Z_lt_le_dec n width) as [Hlt | Hge].
  - rewrite (rol_bit (rol val a width) b) by lia.
    rewrite (rol_bit val a) by (try apply Z.mod_pos_bound; lia).
    rewrite (rol_bit val (a + b)) by lia.
    apply (f_equal (Z.testbit val)).
    rewrite Zminus_mod_idemp_l. apply (f_equal (fun x => x mod width)). lia.
  - rewrite (bits_above _ width n), (bits_above _ width n);
      try lia; try reflexivity; apply rol_range; lia.
Qed.

End RolFacts.

Module ScheduleFacts.
Import Sdes Aux.

Lemma rol_full (val width : Z) :
  0 < width <= 16 -> rol val width width = val mod 2 ^ width.
Proof.
  intros Hw. apply Z.bits_inj'. intros n Hn.
  destruct (Z_lt_le_dec n width) as [Hlt | Hge].
  - rewrite RolFacts.rol_bit, Z.mod_pow2_bits_low by lia.
    apply (f_equal (Z.testbit val)).
    symmetry. apply Z.mod_unique with (q := -1); lia.
  - rewrite (RolFacts.bits_above _ width n), Z.mod_pow2_bits_high;
      try lia; try reflexivity.
    apply RolFacts.rol_range. lia.
Qed.

Lemma permute_P10_low (key : Z) :
  permute key P10 10 10 = permute (key mod 1024) P10 10 10.
Proof.
  rewrite !PermuteFacts.permute_value by lia.
  f_equal. apply map_ext_in. intros t Ht.
  change 1024 with (2 ^ 10). symmetry. apply Z.mod_pow2_bits_low.
  unfold P10 in Ht. cbn [firstn In] in Ht.
  repeat (destruct Ht as [Ht | Ht]; [subst t; lia |]). contradiction.
Qed.

Lemma nodupb_NoDup (l : list Z) : nodupb l = true -> NoDup l.
Proof.
  induction l as [| x l IH]; cbn [nodupb]; intros H.
  - constructor.
  - apply andb_true_iff in H. destruct H as [Hx Hl].
    constructor; [| apply IH; exact Hl].
    intros Hin. apply negb_true_iff in Hx.
    assert (E : existsb (Z.eqb x) l = true)
      by (apply existsb_exists; exists x; split; [exact Hin | apply Z.eqb_refl]).
    congruence.
Qed.

Lemma NoDup_map_injective {A B : Type} (f : A -> B) (l : list A) :
  NoDup (map f l) ->
  forall x y, In x l -> In y l -> f x = f y -> x = y.
Proof.
  induction l as [| a l IH]; cbn [map]; intros H x y Hx Hy E.
  - contradiction.
  - inversion H as [| ? ? Hnotin Hnd]; subst.
    destruct Hx as [Hx | Hx], Hy as [Hy | Hy]; subst.
    + reflexivity.
    + exfalso. apply Hnotin. rewrite E. apply in_map. exact Hy.
    + exfalso. apply Hnotin. rewrite <- E. apply in_map. exact Hx.
    + apply IH; assumption.
Qed.

Lemma in_keys (n : nat) (x : Z) :
  0 <= x < Z.of_nat n -> In x (map Z.of_nat (seq 0 n)).
Proof.
  intros Hx. rewrite <- (Z2Nat.id x) by lia. apply in_map, in_seq. lia.
Qed.

Lemma subkey_codes_distinct :
  NoDup (map subkey_code (map Z.of_nat (seq 0 1024))).
Proof. apply nodupb_NoDup. vm_compute. reflexivity. Qed.

End ScheduleFacts.

(** ** Permutation, rotation and the key schedule *)

Import Sdes Bmper KeyText Aux BmpFile.





(** X3. [rol] rotates within [width] bits: for [0 <= sh <= width <= 16], bit
    [i] of the result is bit [(i - sh) mod width] of [val], and the result has
    no bit at or above [width]. *)
Theorem rol_rotates_bits (val sh width : Z) :
  0 < width <= 16 -> 0 <= sh <= width ->
  0 <= rol val sh width < 2 ^ width
  /\ forall i, 0 <= i < width ->
       Z.testbit (rol val sh width) i = Z.testbit val ((i - sh) mod width).
Proof.
  intros Hw Hs. split.
  - apply RolFacts.rol_range. lia.
  - intros i Hi. apply RolFacts.rol_bit; assumption.
Qed.

Lemma rol_rotates_bits_witness :
  Z.testbit (rol 17 1 5) 0 = Z.testbit 17 ((0 - 1) mod 5).
Proof.
  apply (proj2 (rol_rotates_bits 17 1 5 ltac:(lia) ltac:(lia)) 0). lia.
Defined.

(** X4. Rotations add up: rotating by [a] and then by [b] is rotating by
    [a + b] when [a + b <= width]; so the second rotation by 2 of the key
    schedule reaches 3 positions, and a full turn gives the [width] low bits
    back. *)
Theorem rol_composes (val a b width : Z) :
  0 < width <= 16 -> 0 <= a -> 0 <= b -> a + b <= width ->
  rol (rol val a width) b width = rol val (a + b) width
  /\ rol (rol val 1 5) 2 5 = rol val 3 5
  /\ rol val width width = val mod 2 ^ width.
Proof.
  intros Hw Ha Hb Hab. split; [| split].
  - apply RolFacts.rol_rol; assumption.
  - apply (RolFacts.rol_rol val 1 2 5); lia.
  - apply ScheduleFacts.rol_full. exact Hw.
Qed.

Lemma rol_composes_witness : rol (rol 19 2 5) 3 5 = rol 19 (2 + 3) 5.
Proof.
  apply (proj1 (rol_composes 19 2 3 5 ltac:(lia) ltac:(lia) ltac:(lia) ltac:(lia))).
Defined.

(** X5. The key schedule reads the 10 low bits of [key10] only. *)
Theorem subkeys_ignore_high_bits (key10 : Z) :
  sdes_generate_subkeys key10 = sdes_generate_subkeys (key10 mod 1024).
Proof.
  unfold sdes_generate_subkeys.
  rewrite (ScheduleFacts.permute_P10_low key10). reflexivity.
Qed.

(** X6. Distinct 10-bit master keys give distinct subkey pairs. *)
Theorem key_schedule_injective (k k' : Z) :
  0 <= k < 1024 -> 0 <= k' < 1024 ->
  sdes_generate_subkeys k = sdes_generate_subkeys k' -> k = k'.
Proof.
  intros Hk Hk' E.
  apply (ScheduleFacts.NoDup_map_injective subkey_code
           (map Z.of_nat (seq 0 1024)) ScheduleFacts.subkey_codes_distinct).
  - apply ScheduleFacts.in_keys. change (Z.of_nat 1024) with 1024. exact Hk.
  - apply ScheduleFacts.in_keys. change (Z.of_nat 1024) with 1024. exact Hk'.
  - unfold subkey_code. rewrite E. reflexivity.
Qed.

Lemma key_schedule_injective_witness : 642 = 642.
Proof.
  apply (key_schedule_injective 642 642); [lia | lia | reflexivity].
Defined.

(** X7. Exactly eight master keys give two equal subkeys, and a key whose
    subkeys are equal makes encryption its own inverse. *)
Theorem equal_subkeys (key b : Z) :
  0 <= key < 1024 -> is_u8 b ->
  (fst (sdes_generate_subkeys key) = snd (sdes_generate_subkeys key)
   <-> In key equal_subkey_keys)
  /\ (forall K, sdes_generate_subkeys key = (K, K) ->
        sdes_encrypt_byte (sdes_encrypt_byte b K K) K K = b).
Proof.
  intros Hk Hb.
  assert (H : Z.eqb (fst (sdes_generate_subkeys key))
                    (snd (sdes_generate_subkeys key))
              = existsb (Z.eqb key) equal_subkey_keys).
  { apply Bool.eqb_prop.
    apply (all_below_spec 1024 (fun key =>
      Bool.eqb (Z.eqb (fst (sdes_generate_subkeys key))
                      (snd (sdes_generate_subkeys key)))
               (existsb (Z.eqb key) equal_subkey_keys)));
      [vm_compute; reflexivity | change (Z.of_nat 1024) with 1024; exact Hk]. }
  split.
  - rewrite <- Z.eqb_eq, H, existsb_exists. split.
    + intros [x [Hin Hx]]. apply Z.eqb_eq in Hx. subst x. exact Hin.
    + intros Hin. exists key. split; [exact Hin | apply Z.eqb_refl].
  - intros K HK.
    rewrite <- (SdesFacts.sdes_decrypt_byte_swap (sdes_encrypt_byte b K K) K K).
    destruct (SdesFacts.sdes_generate_subkeys_u8 key) as [U _].
    rewrite HK in U. cbn [fst] in U.
    apply SdesFacts.decrypt_encrypt; assumption.
Qed.

Lemma equal_subkeys_witness :
  fst (sdes_generate_subkeys 96) = snd (sdes_generate_subkeys 96).
Proof.
  apply (proj1 (equal_subkeys 96 0 ltac:(lia) ltac:(unfold is_u8; lia))).
  cbn. tauto.
Defined.

(** ** The pixel loops, continued *)

Module ChainFacts.
Import Sdes Bmper Aux SdesFacts.

Lemma process_pixels_encrypt e mode K1 K2 iv fi :
  e <> 0 ->
  process_pixels e mode K1 K2 iv fi
  = match mode with
    | MODE_ECB => while_fgetc (ecb_encrypt_body K1 K2) tt fi
    | MODE_CBC => while_fgetc (cbc_encrypt_body K1 K2) iv fi
    | MODE_CTR => while_fgetc (ctr_encrypt_body K1 K2) iv fi
    end.
Proof.
  intros He. unfold process_pixels. apply Z.eqb_neq in He. rewrite He.
  reflexivity.
Qed.

Lemma process_pixels_decrypt mode K1 K2 iv fi :
  process_pixels 0 mode K1 K2 iv fi
  = match mode with
    | MODE_ECB => while_fgetc (ecb_decrypt_body K1 K2) tt fi
    | MODE_CBC => while_fgetc (cbc_decrypt_body K1 K2) iv fi
    | MODE_CTR => while_fgetc (ctr_decrypt_body K1 K2) iv fi
    end.
Proof. unfold process_pixels. rewrite Z.eqb_refl. reflexivity. Qed.

Lemma while_fgetc_app {S : Type} (body : S -> Z -> Z * S) (l1 l2 : list Z) :
  forall st,
    while_fgetc body st (l1 ++ l2)
    = while_fgetc body st l1 ++ while_fgetc body (final_state body st l1) l2.
Proof.
  induction l1 as [| c l1 IH]; intros st.
  - reflexivity.
  - cbn [app while_fgetc final_state fold_left].
    destruct (body st c) as [out st'] eqn:E. cbn [snd].
    rewrite IH. reflexivity.
Qed.

Lemma while_fgetc_bytes {S : Type} (body : S -> Z -> Z * S) (fi : list Z) :
  (forall st c, is_u8 (fst (body st c))) ->
  forall st, Forall is_u8 (while_fgetc body st fi).
Proof.
  intros Hb. induction fi as [| c fi IH]; intros st; cbn [while_fgetc].
  - constructor.
  - specialize (Hb st c). destruct (body st c) as [out st'].
    constructor; [exact Hb | apply IH].
Qed.

Lemma ecb_encrypt_body_u8 K1 K2 st c : is_u8 (fst (ecb_encrypt_body K1 K2 st c)).
Proof. unfold ecb_encrypt_body. cbn [fst]. apply sdes_encrypt_byte_u8. Qed.

Lemma cbc_encrypt_body_u8 K1 K2 st c : is_u8 (fst (cbc_encrypt_body K1 K2 st c)).
Proof. unfold cbc_encrypt_body. cbn [fst]. apply sdes_encrypt_byte_u8. Qed.

Lemma ctr_encrypt_body_u8 K1 K2 st c : is_u8 (fst (ctr_encrypt_body K1 K2 st c)).
Proof. unfold ctr_encrypt_body. cbn [fst]. apply u8_range. Qed.

Lemma ecb_decrypt_body_u8 K1 K2 st c : is_u8 (fst (ecb_decrypt_body K1 K2 st c)).
Proof. unfold ecb_decrypt_body. cbn [fst]. apply sdes_decrypt_byte_u8. Qed.

Lemma cbc_decrypt_body_u8 K1 K2 st c : is_u8 (fst (cbc_decrypt_body K1 K2 st c)).
Proof. unfold cbc_decrypt_body. cbn [fst]. apply u8_range. Qed.

Lemma ctr_decrypt_body_u8 K1 K2 st c : is_u8 (fst (ctr_decrypt_body K1 K2 st c)).
Proof. unfold ctr_decrypt_body. cbn [fst]. apply u8_range. Qed.

Lemma last_nonempty {A : Type} (x d d' : A) (l : list A) :
  last (x :: l) d = last (x :: l) d'.
Proof.
  revert x. induction l as [| y l IH]; intros x.
  - reflexivity.
  - change (last (y :: l) d = last (y :: l) d'). apply IH.
Qed.

Lemma last_cons {A : Type} (a d : A) (l : list A) : last (a :: l) d = last l a.
Proof.
  destruct l as [| x l]; [reflexivity |].
  change (last (x :: l) d = last (x :: l) a). apply last_nonempty.
Qed.

Lemma final_state_cons {S : Type} (body : S -> Z -> Z * S) st c l :
  final_state body st (c :: l) = final_state body (snd (body st c)) l.
Proof. reflexivity. Qed.

Lemma while_fgetc_cons {S : Type} (body : S -> Z -> Z * S) st c l :
  while_fgetc body st (c :: l)
  = fst (body st c) :: while_fgetc body (snd (body st c)) l.
Proof. cbn [while_fgetc]. destruct (body st c). reflexivity. Qed.

Lemma cbc_encrypt_final K1 K2 fi :
  forall prev,
    final_state (cbc_encrypt_body K1 K2) prev fi
    = last (while_fgetc (cbc_encrypt_body K1 K2) prev fi) prev.
Proof.
  induction fi as [| c fi IH]; intros prev.
  - reflexivity.
  - rewrite final_state_cons, while_fgetc_cons, last_cons.
    unfold cbc_encrypt_body at 2 4 5. cbn [fst snd]. apply IH.
Qed.

Lemma cbc_decrypt_final K1 K2 fi :
  Forall is_u8 fi ->
  forall prev,
    final_state (cbc_decrypt_body K1 K2) prev fi = last fi prev.
Proof.
  intros Hfi. induction Hfi as [| c fi Hc Hfi IH]; intros prev.
  - reflexivity.
  - rewrite final_state_cons, last_cons.
    unfold cbc_decrypt_body at 2. cbn [snd].
    rewrite (u8_id c Hc). apply IH.
Qed.

Lemma ctr_final K1 K2 fi :
  forall ctr, is_u8 ctr ->
    final_state (ctr_encrypt_body K1 K2) ctr fi
    = u8 (ctr + Z.of_nat (List.length fi)).
Proof.
  induction fi as [| c fi IH]; intros ctr Hctr.
  - cbn [List.length final_state fold_left]. change (Z.of_nat 0) with 0.
    rewrite Z.add_0_r. symmetry. apply u8_id. exact Hctr.
  - rewrite final_state_cons.
    unfold ctr_encrypt_body at 2. cbn [snd].
    rewrite IH by apply u8_range.
    unfold u8. rewrite Zplus_mod_idemp_l.
    apply (f_equal (fun x => x mod 256)). cbn [List.length]. lia.
Qed.

Lemma ecb_encrypt_nth K1 K2 fi :
  forall (i : nat), (i < List.length fi)%nat ->
    nth i (while_fgetc (ecb_encrypt_body K1 K2) tt fi) 0
    = sdes_encrypt_byte (u8 (nth i fi 0)) K1 K2.
Proof.
  induction fi as [| c fi IH]; intros i Hi.
  - cbn in Hi. lia.
  - cbn [while_fgetc ecb_encrypt_body]. destruct i as [| i].
    + reflexivity.
    + cbn [nth]. apply IH. cbn [List.length] in Hi. lia.
Qed.

Lemma ecb_loops_round_trip K1 K2 fi :
  is_u8 K1 -> is_u8 K2 -> Forall is_u8 fi ->
  while_fgetc (ecb_decrypt_body K1 K2) tt
    (while_fgetc (ecb_encrypt_body K1 K2) tt fi) = fi
  /\ while_fgetc (ecb_encrypt_body K1 K2) tt
       (while_fgetc (ecb_decrypt_body K1 K2) tt fi) = fi.
Proof.
  intros H1 H2 Hfi. induction Hfi as [| c fi Hc Hfi [IHa IHb]].
  - split; reflexivity.
  - cbn [while_fgetc ecb_encrypt_body ecb_decrypt_body].
    rewrite (u8_id c Hc).
    rewrite (u8_id (sdes_encrypt_byte c K1 K2)) by apply sdes_encrypt_byte_u8.
    rewrite (u8_id (sdes_decrypt_byte c K1 K2)) by apply sdes_decrypt_byte_u8.
    rewrite decrypt_encrypt, encrypt_decrypt by assumption.
    rewrite IHa, IHb. split; reflexivity.
Qed.

Lemma cbc_loops_round_trip_rev K1 K2 fi :
  is_u8 K1 -> is_u8 K2 -> Forall is_u8 fi ->
  forall prev, is_u8 prev ->
    while_fgetc (cbc_encrypt_body K1 K2) prev
      (while_fgetc (cbc_decrypt_body K1 K2) prev fi) = fi.
Proof.
  intros H1 H2 Hfi. induction Hfi as [| c fi Hc Hfi IH]; intros prev Hprev.
  - reflexivity.
  - cbn [while_fgetc cbc_encrypt_body cbc_decrypt_body].
    rewrite (u8_id c Hc).
    set (dec := sdes_decrypt_byte c K1 K2).
    assert (Hdec : is_u8 dec) by apply sdes_decrypt_byte_u8.
    rewrite (u8_id (Z.lxor dec prev)) by (apply lxor_u8; assumption).
    rewrite (u8_id (Z.lxor dec prev)) by (apply lxor_u8; assumption).
    rewrite lxor_cancel_r, (u8_id dec Hdec).
    unfold dec. rewrite encrypt_decrypt by assumption.
    rewrite IH by exact Hc. reflexivity.
Qed.

Lemma cbc_decrypt_nth K1 K2 fi :
  Forall is_u8 fi ->
  forall prev (i : nat), is_u8 prev -> (i < List.length fi)%nat ->
    nth i (while_fgetc (cbc_decrypt_body K1 K2) prev fi) 0
    = Z.lxor (sdes_decrypt_byte (nth i fi 0) K1 K2)
             (match i with O => prev | S j => nth j fi 0 end).
Proof.
  intros Hfi. induction Hfi as [| c fi Hc Hfi IH]; intros prev i Hprev Hi.
  - cbn in Hi. lia.
  - cbn [while_fgetc cbc_decrypt_body]. rewrite (u8_id c Hc).
    destruct i as [| i].
    + cbn [nth]. apply u8_id. apply lxor_u8;
        [apply sdes_decrypt_byte_u8 | exact Hprev].
    + cbn [nth]. cbn [List.length] in Hi.
      rewrite IH by (try exact Hc; lia).
      destruct i; reflexivity.
Qed.

Lemma lxor_mask (a b k : Z) :
  Z.lxor (Z.lxor a k) (Z.lxor a b) = Z.lxor b k.
Proof.
  apply Z.bits_inj'. intros n Hn. rewrite !Z.lxor_spec.
  destruct (Z.testbit a n), (Z.testbit b n), (Z.testbit k n); reflexivity.
Qed.

Lemma lxor_cancel_l (a k : Z) : Z.lxor (Z.lxor a k) a = k.
Proof.
  apply Z.bits_inj'. intros n Hn. rewrite !Z.lxor_spec.
  destruct (Z.testbit a n), (Z.testbit k n); reflexivity.
Qed.

Lemma Forall_nth_u8 (l : list Z) (i : nat) :
  Forall is_u8 l -> (i < List.length l)%nat -> is_u8 (nth i l 0).
Proof.
  intros H Hi. rewrite Forall_forall in H. apply H. apply nth_In. exact Hi.
Qed.

End ChainFacts.

(** X8. ECB round trip: under any 8-bit subkey pair the ECB decrypt loop
    undoes the ECB encrypt loop on every byte sequence, and the encrypt loop
    undoes the decrypt loop. *)
Theorem ecb_round_trip (K1 K2 iv iv' e : Z) (fi : list Z) :
  is_u8 K1 -> is_u8 K2 -> Forall is_u8 fi -> e <> 0 ->
  process_pixels 0 MODE_ECB K1 K2 iv' (process_pixels e MODE_ECB K1 K2 iv fi) = fi
  /\ process_pixels e MODE_ECB K1 K2 iv (process_pixels 0 MODE_ECB K1 K2 iv' fi) = fi.
Proof.
  intros H1 H2 Hfi He.
  rewrite !ChainFacts.process_pixels_decrypt.
  rewrite !ChainFacts.process_pixels_encrypt by exact He.
  apply ChainFacts.ecb_loops_round_trip; assumption.
Qed.

Lemma ecb_round_trip_witness :
  process_pixels 0 MODE_ECB 164 67 0 (process_pixels 1 MODE_ECB 164 67 0 [7; 7; 200])
  = [7; 7; 200].
Proof.
  assert (H1 : is_u8 164) by (unfold is_u8; lia).
  assert (H2 : is_u8 67) by (unfold is_u8; lia).
  assert (Hfi : Forall is_u8 [7; 7; 200])
    by (repeat constructor; unfold is_u8; lia).
  apply (proj1 (ecb_round_trip 164 67 0 0 1 [7; 7; 200] H1 H2 Hfi ltac:(lia))).
Defined.

(** X9. In every mode and direction, and whatever the arguments, the pixel
    loops write exactly one byte per byte read, each between 0 and 255. *)
Theorem process_pixels_shape (e : Z) (mode : sdes_mode_t) (K1 K2 iv : Z)
    (fi : list Z) :
  List.length (process_pixels e mode K1 K2 iv fi) = List.length fi
  /\ Forall is_u8 (process_pixels e mode K1 K2 iv fi).
Proof.
  unfold process_pixels.
  destruct (negb (e =? 0)), mode;
    (split; [apply BmperFacts.while_fgetc_length |]);
    apply ChainFacts.while_fgetc_bytes; intros st c.
  - apply ChainFacts.ecb_encrypt_body_u8.
  - apply ChainFacts.cbc_encrypt_body_u8.
  - apply ChainFacts.ctr_encrypt_body_u8.
  - apply ChainFacts.ecb_decrypt_body_u8.
  - apply ChainFacts.cbc_decrypt_body_u8.
  - apply ChainFacts.ctr_decrypt_body_u8.
Qed.

(** X10. CBC is a bijection of byte sequences: encrypting the output of the
    CBC decrypt loop from the same IV gives the input back as well. *)
Theorem cbc_round_trip_reverse (K1 K2 iv e : Z) (fi : list Z) :
  is_u8 K1 -> is_u8 K2 -> is_u8 iv -> Forall is_u8 fi -> e <> 0 ->
  process_pixels e MODE_CBC K1 K2 iv (process_pixels 0 MODE_CBC K1 K2 iv fi) = fi.
Proof.
  intros H1 H2 Hiv Hfi He.
  rewrite ChainFacts.process_pixels_decrypt.
  rewrite ChainFacts.process_pixels_encrypt by exact He.
  apply ChainFacts.cbc_loops_round_trip_rev; assumption.
Qed.

Lemma cbc_round_trip_reverse_witness :
  process_pixels 1 MODE_CBC 164 67 9 (process_pixels 0 MODE_CBC 164 67 9 [1; 2])
  = [1; 2].
Proof.
  apply (cbc_round_trip_reverse 164 67 9 1 [1; 2]);
    [unfold is_u8; lia | unfold is_u8; lia | unfold is_u8; lia
    | repeat constructor; unfold is_u8; lia | lia].
Defined.

(** X11. CBC can be resumed: the output for [l1 ++ l2] is the output for [l1]
    followed by the output for [l2] started from the last ciphertext byte of
    the first part (the IV when [l1] is empty); that byte is the last one
    written when encrypting and the last one read when decrypting. *)
Theorem cbc_resumes (K1 K2 iv e : Z) (l1 l2 : list Z) :
  e <> 0 -> Forall is_u8 l1 ->
  process_pixels e MODE_CBC K1 K2 iv (l1 ++ l2)
  = process_pixels e MODE_CBC K1 K2 iv l1
    ++ process_pixels e MODE_CBC K1 K2
         (last (process_pixels e MODE_CBC K1 K2 iv l1) iv) l2
  /\ process_pixels 0 MODE_CBC K1 K2 iv (l1 ++ l2)
     = process_pixels 0 MODE_CBC K1 K2 iv l1
       ++ process_pixels 0 MODE_CBC K1 K2 (last l1 iv) l2.
Proof.
  intros He Hl1.
  rewrite !ChainFacts.process_pixels_decrypt.
  rewrite !ChainFacts.process_pixels_encrypt by exact He.
  rewrite !ChainFacts.while_fgetc_app.
  rewrite ChainFacts.cbc_encrypt_final.
  rewrite ChainFacts.cbc_decrypt_final by exact Hl1.
  split; reflexivity.
Qed.

Lemma cbc_resumes_witness :
  process_pixels 1 MODE_CBC 164 67 9 ([1; 2] ++ [3])
  = process_pixels 1 MODE_CBC 164 67 9 [1; 2]
    ++ process_pixels 1 MODE_CBC 164 67
         (last (process_pixels 1 MODE_CBC 164 67 9 [1; 2]) 9) [3].
Proof.
  apply (proj1 (cbc_resumes 164 67 9 1 [1; 2] [3] ltac:(lia)
                  ltac:(repeat constructor; unfold is_u8; lia))).
Defined.

(** X12. CTR can be resumed: the output for [l1 ++ l2] is the output for [l1]
    followed by the output for [l2] started from the counter advanced by the
    length of [l1] modulo 256. *)
Theorem ctr_resumes (K1 K2 ctr0 e : Z) (l1 l2 : list Z) :
  is_u8 ctr0 ->
  process_pixels e MODE_CTR K1 K2 ctr0 (l1 ++ l2)
  = process_pixels e MODE_CTR K1 K2 ctr0 l1
    ++ process_pixels e MODE_CTR K1 K2
         ((ctr0 + Z.of_nat (List.length l1)) mod 256) l2.
Proof.
  intros Hctr.
  assert (D : forall c l, process_pixels e MODE_CTR K1 K2 c l
                          = while_fgetc (ctr_encrypt_body K1 K2) c l).
  { intros c l. unfold process_pixels. destruct (negb (e =? 0)).
    - reflexivity.
    - symmetry. apply BmperFacts.ctr_loops_agree. }
  rewrite !D, ChainFacts.while_fgetc_app, ChainFacts.ctr_final by exact Hctr.
  reflexivity.
Qed.

Lemma ctr_resumes_witness :
  process_pixels 1 MODE_CTR 164 67 255 ([1; 2] ++ [3])
  = process_pixels 1 MODE_CTR 164 67 255 [1; 2]
    ++ process_pixels 1 MODE_CTR 164 67
         ((255 + Z.of_nat (List.length [1; 2])) mod 256) [3].
Proof.
  apply (ctr_resumes 164 67 255 1 [1; 2] [3]). unfold is_u8. lia.
Defined.

(** X13. CBC decryption is local: plaintext byte [i] is the decryption of
    ciphertext byte [i] XORed with ciphertext byte [i - 1] (the IV for the
    first byte), so it depends on no other input byte. *)
Theorem cbc_decrypt_is_local (K1 K2 iv : Z) (fi : list Z) (i : nat) :
  is_u8 iv -> Forall is_u8 fi -> (i < List.length fi)%nat ->
  nth i (process_pixels 0 MODE_CBC K1 K2 iv fi) 0
  = Z.lxor (sdes_decrypt_byte (nth i fi 0) K1 K2)
           (match i with O => iv | S j => nth j fi 0 end).
Proof.
  intros Hiv Hfi Hi. rewrite ChainFacts.process_pixels_decrypt.
  apply ChainFacts.cbc_decrypt_nth; assumption.
Qed.

Lemma cbc_decrypt_is_local_witness :
  nth 1 (process_pixels 0 MODE_CBC 164 67 9 [1; 2; 3]) 0
  = Z.lxor (sdes_decrypt_byte (nth 1 [1; 2; 3] 0) 164 67) (nth 0 [1; 2; 3] 0).
Proof.
  apply (cbc_decrypt_is_local 164 67 9 [1; 2; 3] 1);
    [unfold is_u8; lia | repeat constructor; unfold is_u8; lia | cbn; lia].
Defined.

(** X14. The CTR keystream has period 256: the mask applied to byte
    [i + 256] is the mask applied to byte [i]. *)
Theorem ctr_keystream_period (K1 K2 ctr0 e : Z) (fi : list Z) (i : nat) :
  is_u8 ctr0 -> Forall is_u8 fi -> (i + 256 < List.length fi)%nat ->
  Z.lxor (nth (i + 256) (process_pixels e MODE_CTR K1 K2 ctr0 fi) 0)
         (nth (i + 256) fi 0)
  = Z.lxor (nth i (process_pixels e MODE_CTR K1 K2 ctr0 fi) 0) (nth i fi 0).
Proof.
  intros Hctr Hfi Hi.
  assert (D : process_pixels e MODE_CTR K1 K2 ctr0 fi
              = while_fgetc (ctr_encrypt_body K1 K2) ctr0 fi).
  { unfold process_pixels. destruct (negb (e =? 0)).
    - reflexivity.
    - symmetry. apply BmperFacts.ctr_loops_agree. }
  rewrite D.
  rewrite !BmperFacts.ctr_loop_nth by (try assumption; lia).
  rewrite !ChainFacts.lxor_cancel_l.
  apply (f_equal (fun c => sdes_encrypt_byte c K1 K2)).
  unfold u8. rewrite Nat2Z.inj_add. change (Z.of_nat 256) with (1 * 256).
  rewrite Z.add_assoc, Z.mod_add by lia. reflexivity.
Qed.

Lemma ctr_keystream_period_witness :
  Z.lxor (nth (0 + 256) (process_pixels 1 MODE_CTR 164 67 3 (repeat 5 300)) 0)
         (nth (0 + 256) (repeat 5 300) 0)
  = Z.lxor (nth 0 (process_pixels 1 MODE_CTR 164 67 3 (repeat 5 300)) 0)
           (nth 0 (repeat 5 300) 0).
Proof.
  apply (ctr_keystream_period 164 67 3 1 (repeat 5 300) 0).
  - unfold is_u8. lia.
  - apply Forall_forall. intros x Hx. apply repeat_spec in Hx. subst x.
    unfold is_u8. lia.
  - rewrite repeat_length. lia.
Defined.

(** X15. CTR is malleable: changing input byte [i] by XOR with a difference
    changes output byte [i] by XOR with the same difference, and no other
    output byte. *)
Theorem ctr_is_malleable (K1 K2 ctr0 e : Z) (fi fi' : list Z) (i : nat) :
  is_u8 ctr0 -> Forall is_u8 fi -> Forall is_u8 fi' ->
  List.length fi = List.length fi' -> (i < List.length fi)%nat ->
  nth i (process_pixels e MODE_CTR K1 K2 ctr0 fi') 0
  = Z.lxor (nth i (process_pixels e MODE_CTR K1 K2 ctr0 fi) 0)
           (Z.lxor (nth i fi 0) (nth i fi' 0)).
Proof.
  intros Hctr Hfi Hfi' Hlen Hi.
  assert (D : forall l, process_pixels e MODE_CTR K1 K2 ctr0 l
                        = while_fgetc (ctr_encrypt_body K1 K2) ctr0 l).
  { intros l. unfold process_pixels. destruct (negb (e =? 0)).
    - reflexivity.
    - symmetry. apply BmperFacts.ctr_loops_agree. }
  rewrite !D.
  rewrite !BmperFacts.ctr_loop_nth by (try assumption; lia).
  rewrite ChainFacts.lxor_mask. reflexivity.
Qed.

Lemma ctr_is_malleable_witness :
  nth 1 (process_pixels 1 MODE_CTR 164 67 3 [1; 6; 3]) 0
  = Z.lxor (nth 1 (process_pixels 1 MODE_CTR 164 67 3 [1; 2; 3]) 0)
           (Z.lxor (nth 1 [1; 2; 3] 0) (nth 1 [1; 6; 3] 0)).
Proof.
  apply (ctr_is_malleable 164 67 3 1 [1; 2; 3] [1; 6; 3] 1);
    [unfold is_u8; lia | repeat constructor; unfold is_u8; lia
    | repeat constructor; unfold is_u8; lia | reflexivity | cbn; lia].
Defined.

(** X16. ECB shows repetitions: two ciphertext bytes are equal exactly when
    the two plaintext bytes at the same positions are equal. *)
Theorem ecb_preserves_equality (K1 K2 iv e : Z) (fi : list Z) (i j : nat) :
  is_u8 K1 -> is_u8 K2 -> Forall is_u8 fi -> e <> 0 ->
  (i < List.length fi)%nat -> (j < List.length fi)%nat ->
  nth i (process_pixels e MODE_ECB K1 K2 iv fi) 0
  = nth j (process_pixels e MODE_ECB K1 K2 iv fi) 0
  <-> nth i fi 0 = nth j fi 0.
Proof.
  intros H1 H2 Hfi He Hi Hj.
  rewrite ChainFacts.process_pixels_encrypt by exact He.
  rewrite !ChainFacts.ecb_encrypt_nth by assumption.
  pose proof (ChainFacts.Forall_nth_u8 fi i Hfi Hi) as Bi.
  pose proof (ChainFacts.Forall_nth_u8 fi j Hfi Hj) as Bj.
  rewrite (u8_id _ Bi), (u8_id _ Bj).
  split.
  - apply SdesFacts.sdes_encrypt_byte_inj; assumption.
  - intros E. rewrite E. reflexivity.
Qed.

Lemma ecb_preserves_equality_witness :
  nth 0 (process_pixels 1 MODE_ECB 164 67 0 [7; 8; 7]) 0
  = nth 2 (process_pixels 1 MODE_ECB 164 67 0 [7; 8; 7]) 0.
Proof.
  apply (proj2 (ecb_preserves_equality 164 67 0 1 [7; 8; 7] 0 2
           ltac:(unfold is_u8; lia) ltac:(unfold is_u8; lia)
           ltac:(repeat constructor; unfold is_u8; lia) ltac:(lia)
           ltac:(cbn; lia) ltac:(cbn; lia))).
  reflexivity.
Defined.

(** ** The key parser, continued *)

Module ParseFacts.
Import Sdes KeyText Aux BmpFile KeyTextFacts.

Lemma existsb_not_forallb {A : Type} (p : A -> bool) (l : list A) :
  existsb (fun x => negb (p x)) l = true -> forallb p l = false.
Proof.
  induction l as [| x l IH]; cbn [existsb forallb]; intros H.
  - discriminate.
  - destruct (p x); cbn [negb orb andb] in *; [apply IH; exact H | reflexivity].
Qed.

Lemma parse_loop_error s :
  forall n k e, parse_loop s n k = inl e -> e = -2.
Proof.
  induction s as [| ch rest IH]; intros n k e H; cbn [parse_loop] in H.
  - discriminate.
  - destruct (is_nul ch || is_lf ch || is_cr ch); [discriminate |].
    destruct (is_bit_char ch); [apply IH in H; exact H |].
    destruct (is_blank ch); [apply IH in H; exact H |].
    congruence.
Qed.

Lemma land_1023_range (k : Z) : 0 <= Z.land k 1023 < 1024.
Proof.
  change 1023 with (Z.ones 10). rewrite Z.land_ones by lia.
  change (2 ^ 10) with 1024. apply Z.mod_pos_bound. lia.
Qed.

(** The text of a key. *)
Lemma key_text_facts (k : Z) :
  0 <= k < 1024 ->
  forallb valid_char (line (key_text k)) = true
  /\ List.length (line (key_text k)) = 10%nat
  /\ Spec.of_bits (significant (line (key_text k))) mod 1024 = k.
Proof.
  intros Hk.
  assert (H : forallb valid_char (line (key_text k))
              && Nat.eqb (List.length (line (key_text k))) 10
              && Z.eqb (Spec.of_bits (significant (line (key_text k))) mod 1024) k
              = true).
  { apply (all_below_spec 1024 (fun k =>
      forallb valid_char (line (key_text k))
      && Nat.eqb (List.length (line (key_text k))) 10
      && Z.eqb (Spec.of_bits (significant (line (key_text k))) mod 1024) k));
      [vm_compute; reflexivity | change (Z.of_nat 1024) with 1024; exact Hk]. }
  apply andb_true_iff in H. destruct H as [H H3].
  apply andb_true_iff in H. destruct H as [H1 H2].
  apply Nat.eqb_eq in H2. apply Z.eqb_eq in H3. auto.
Qed.

(** The parser sees its argument through [line] only. *)
Lemma parse_loop_line s :
  forall n k, parse_loop s n k = parse_loop (string_of_list_ascii (line s)) n k.
Proof.
  induction s as [| ch rest IH]; intros n k.
  - reflexivity.
  - cbn [line parse_loop].
    destruct (is_nul ch || is_lf ch || is_cr ch) eqn:E; [reflexivity |].
    cbn [string_of_list_ascii parse_loop]. rewrite E.
    destruct (is_bit_char ch); [apply IH |].
    destruct (is_blank ch); [apply IH | reflexivity].
Qed.

Lemma line_c_str s : line s = line_of (c_str s).
Proof.
  induction s as [| ch rest IH]; [reflexivity |].
  cbn [line c_str]. destruct (is_nul ch) eqn:E; cbn [orb]; [reflexivity |].
  cbn [line_of]. rewrite IH. reflexivity.
Qed.

Lemma c_str_no_nul s : Forall (fun ch => is_nul ch = false) (c_str s).
Proof.
  induction s as [| ch rest IH]; cbn [c_str]; [constructor |].
  destruct (is_nul ch) eqn:E; constructor; assumption.
Qed.

Lemma c_str_of_list l :
  Forall (fun ch => is_nul ch = false) l -> c_str (string_of_list_ascii l) = l.
Proof.
  intros H. induction H as [| ch l Hch Hl IH]; [reflexivity |].
  cbn [string_of_list_ascii c_str]. rewrite Hch, IH. reflexivity.
Qed.

Lemma Forall_firstn {A : Type} (P : A -> Prop) (n : nat) (l : list A) :
  Forall P l -> Forall P (firstn n l).
Proof.
  intros H. revert n. induction H as [| x l Hx Hl IH]; intros [| n];
    cbn [firstn]; constructor; auto.
Qed.

Lemma trim_loop_spec (s : list ascii) (n : nat) :
  (trim_loop s n <= n)%nat
  /\ (forall j, (trim_loop s n <= j < n)%nat ->
        is_lf (nth j s "000"%char) || is_cr (nth j s "000"%char) = true)
  /\ (trim_loop s n = 0%nat
      \/ is_lf (nth (trim_loop s n - 1) s "000"%char)
         || is_cr (nth (trim_loop s n - 1) s "000"%char) = false).
Proof.
  induction n as [| n [IH1 [IH2 IH3]]]; cbn [trim_loop].
  - repeat split; [lia | intros j Hj; lia | left; reflexivity].
  - destruct (is_lf (nth n s "000"%char) || is_cr (nth n s "000"%char)) eqn:E.
    + repeat split; [lia | | exact IH3].
      intros j Hj. destruct (Nat.eq_dec j n) as [-> | Hne];
        [exact E | apply IH2; lia].
    + repeat split; [lia | intros j Hj; lia |].
      right. replace (S n - 1)%nat with n by lia. exact E.
Qed.

Lemma c_str_trim_newline s :
  c_str (trim_newline s)
  = firstn (trim_loop (c_str s) (List.length (c_str s))) (c_str s).
Proof.
  unfold trim_newline. apply c_str_of_list.
  apply Forall_firstn, c_str_no_nul.
Qed.

(** Dropping trailing line ends does not change the first line. *)
Lemma line_of_firstn (l : list ascii) (m : nat) :
  (forall j, (m <= j < List.length l)%nat ->
     is_lf (nth j l "000"%char) || is_cr (nth j l "000"%char) = true) ->
  line_of (firstn m l) = line_of l.
Proof.
  revert m. induction l as [| ch l IH]; intros m H.
  - destruct m; reflexivity.
  - destruct m as [| m].
    + cbn [firstn line_of].
      assert (H0 := H 0%nat). cbn [nth List.length] in H0.
      rewrite H0 by lia. reflexivity.
    + cbn [firstn line_of].
      destruct (is_lf ch || is_cr ch); [reflexivity |].
      f_equal. apply IH. intros j Hj.
      apply (H (S j)). cbn [List.length]. lia.
Qed.

Lemma last_firstn {A : Type} (d : A) (l : list A) :
  forall m, (m < List.length l)%nat -> last (firstn (S m) l) d = nth m l d.
Proof.
  induction l as [| x l IH]; intros m Hm; cbn [List.length] in Hm; [lia |].
  destruct m as [| m]; [reflexivity |].
  destruct l as [| y l]; [cbn [List.length] in Hm; lia |].
  change (firstn (S (S m)) (x :: y :: l)) with (x :: firstn (S m) (y :: l)).
  change (firstn (S m) (y :: l)) with (y :: firstn m l) at 1.
  change (last (x :: y :: firstn m l) d) with (last (y :: firstn m l) d).
  change (y :: firstn m l) with (firstn (S m) (y :: l)).
  rewrite IH by (cbn [List.length] in *; lia). reflexivity.
Qed.

Lemma line_trim_newline s : line (trim_newline s) = line s.
Proof.
  rewrite !line_c_str, c_str_trim_newline.
  apply line_of_firstn.
  apply (proj1 (proj2 (trim_loop_spec (c_str s) (List.length (c_str s))))).
Qed.

End ParseFacts.

(** X17. The three outcomes of the parser on non-NULL arguments: [0] exactly
    when the line has only valid characters and at least 10 characters,
    blanks counted; [-2] exactly when the line has an invalid character;
    [-3] exactly when the line has only valid characters and fewer than 10
    of them. *)
Theorem parse_outcomes (s : string) (cell : Z) :
  (fst (sdes_parse_key10_bits (Some s) (Some cell)) = 0
   <-> forallb valid_char (line s) = true /\ (10 <= List.length (line s))%nat)
  /\ (fst (sdes_parse_key10_bits (Some s) (Some cell)) = -2
      <-> existsb (fun ch => negb (valid_char ch)) (line s) = true)
  /\ (fst (sdes_parse_key10_bits (Some s) (Some cell)) = -3
      <-> forallb valid_char (line s) = true /\ (List.length (line s) < 10)%nat).
Proof.
  destruct (existsb (fun ch => negb (valid_char ch)) (line s)) eqn:Hinv.
  - rewrite KeyTextFacts.sdes_parse_key10_bits_invalid by exact Hinv.
    rewrite (ParseFacts.existsb_not_forallb _ _ Hinv). cbn [fst].
    repeat split; try discriminate; try tauto;
      intros [H _]; discriminate.
  - apply KeyTextFacts.forallb_not_existsb in Hinv.
    rewrite KeyTextFacts.sdes_parse_key10_bits_valid by exact Hinv.
    rewrite Hinv.
    destruct (Z.ltb_spec (Z.of_nat (List.length (line s))) 10); cbn [fst];
      repeat split; try discriminate; try lia; try tauto;
      intros [_ H']; lia.
Qed.

(** X18. The parser returns one of 0, -1, -2, -3; it returns -1 exactly when
    a pointer is NULL; it leaves the output cell as it was unless it returns
    0, and then the cell holds a value below 1024. *)
Theorem parse_writes_on_success_only (bits : option string) (out_key10 : option Z) :
  let r := sdes_parse_key10_bits bits out_key10 in
  (fst r = 0 \/ fst r = -1 \/ fst r = -2 \/ fst r = -3)
  /\ (fst r = -1 <-> bits = None \/ out_key10 = None)
  /\ (fst r <> 0 -> snd r = out_key10)
  /\ (fst r = 0 -> exists k, snd r = Some k /\ 0 <= k < 1024).
Proof.
  unfold sdes_parse_key10_bits.
  destruct bits as [s |], out_key10 as [cell |]; cbn [fst snd];
    try (repeat split; try tauto; try discriminate; intros; lia).
  destruct (parse_loop s 0 0) as [e | [n k]] eqn:E.
  - apply ParseFacts.parse_loop_error in E. subst e. cbn [fst snd].
    repeat split; try tauto; try discriminate.
    intros [H | H]; discriminate.
  - destruct (n <? 10); cbn [fst snd].
    + repeat split; try tauto; try discriminate.
      intros [H | H]; discriminate.
    + repeat split; try tauto; try discriminate.
      * intros [H | H]; discriminate.
      * intros _. exists (Z.land k 1023). split; [reflexivity |].
        apply ParseFacts.land_1023_range.
Qed.

(** X19. Parsing the 10-character binary text of a 10-bit key gives the
    key. *)
Theorem parse_key_text (k cell : Z) :
  0 <= k < 1024 ->
  sdes_parse_key10_bits (Some (key_text k)) (Some cell) = (0, Some k).
Proof.
  intros Hk. destruct (ParseFacts.key_text_facts k Hk) as [Hv [Hlen Hval]].
  rewrite KeyTextFacts.sdes_parse_key10_bits_valid by exact Hv.
  rewrite Hlen, Hval. reflexivity.
Qed.

Lemma parse_key_text_witness :
  sdes_parse_key10_bits (Some (key_text 642)) (Some 0) = (0, Some 642).
Proof. apply (parse_key_text 642 0). lia. Defined.

(** X20. Blanks carry no information: two lines of valid characters with the
    same significant bits, each at least 10 characters long, parse to the
    same key. *)
Theorem parse_ignores_blanks (s t : string) (cell : Z) :
  forallb valid_char (line s) = true -> forallb valid_char (line t) = true ->
  significant (line s) = significant (line t) ->
  (10 <= List.length (line s))%nat -> (10 <= List.length (line t))%nat ->
  sdes_parse_key10_bits (Some s) (Some cell)
  = sdes_parse_key10_bits (Some t) (Some cell).
Proof.
  intros Hs Ht E Ls Lt.
  rewrite !KeyTextFacts.sdes_parse_key10_bits_valid by assumption.
  rewrite E.
  destruct (Z.ltb_spec (Z.of_nat (List.length (line s))) 10); [lia |].
  destruct (Z.ltb_spec (Z.of_nat (List.length (line t))) 10); [lia |].
  reflexivity.
Qed.

Lemma parse_ignores_blanks_witness :
  sdes_parse_key10_bits (Some "10100 00010"%string) (Some 0)
  = sdes_parse_key10_bits (Some "1010000010"%string) (Some 0).
Proof.
  apply (parse_ignores_blanks "10100 00010" "1010000010" 0);
    [reflexivity | reflexivity | reflexivity | cbn; lia | cbn; lia].
Defined.

(** X21. [trim_newline] keeps a prefix of the string, drops only line feeds
    and carriage returns, and leaves a string that does not end with one. *)
Theorem trim_newline_drops_line_ends (s : string) :
  let t := c_str (trim_newline s) in
  t = firstn (List.length t) (c_str s)
  /\ (forall j, (List.length t <= j < List.length (c_str s))%nat ->
        is_lf (nth j (c_str s) "000"%char)
        || is_cr (nth j (c_str s) "000"%char) = true)
  /\ (t = []
      \/ is_lf (last t "000"%char) || is_cr (last t "000"%char) = false).
Proof.
  cbv zeta. rewrite ParseFacts.c_str_trim_newline.
  set (cs := c_str s).
  destruct (ParseFacts.trim_loop_spec cs (List.length cs)) as [H1 [H2 H3]].
  set (m := trim_loop cs (List.length cs)) in *.
  assert (Hlen : List.length (firstn m cs) = m)
    by (rewrite length_firstn; lia).
  rewrite Hlen. split; [reflexivity | split; [exact H2 |]].
  destruct H3 as [H3 | H3].
  - left. rewrite H3. reflexivity.
  - destruct m as [| m']; [left; reflexivity | right].
    replace (S m' - 1)%nat with m' in H3 by lia.
    rewrite ParseFacts.last_firstn by lia. exact H3.
Qed.

(** X22. The parser stops at the first line end by itself, so trimming the
    key text first does not change its result. *)
Theorem parse_after_trim_newline (s : string) (out_key10 : option Z) :
  sdes_parse_key10_bits (Some (trim_newline s)) out_key10
  = sdes_parse_key10_bits (Some s) out_key10.
Proof.
  unfold sdes_parse_key10_bits.
  rewrite (ParseFacts.parse_loop_line (trim_newline s)).
  rewrite (ParseFacts.parse_loop_line s).
  rewrite ParseFacts.line_trim_newline. reflexivity.
Qed.

(** ** The file phase *)

Module FileFacts.
Import Sdes Bmper Aux BmpFile.

Lemma lor_shiftl_add (a b n : Z) :
  0 <= n -> 0 <= a < 2 ^ n -> Z.lor a (Z.shiftl b n) = a + b * 2 ^ n.
Proof.
  intros Hn Ha.
  assert (L : Z.land a (Z.shiftl b n) = 0).
  { apply Z.bits_inj'. intros j Hj. rewrite Z.land_spec, Z.bits_0.
    destruct (Z_lt_le_dec j n) as [Hlt | Hge].
    - rewrite Z.shiftl_spec_low by lia. apply andb_false_r.
    - rewrite (RolFacts.bits_above a n j) by lia. reflexivity. }
  rewrite <- Z.lxor_lor, <- Z.add_nocarry_lxor by exact L.
  rewrite Z.shiftl_mul_pow2 by lia. reflexivity.
Qed.

Lemma to_int_small (x : Z) : 0 <= x < 2147483648 -> to_int x = x.
Proof. intros H. unfold to_int. rewrite Z.mod_small by lia. lia. Qed.

Lemma to_int_range (x : Z) : -2147483648 <= to_int x < 2147483648.
Proof.
  unfold to_int.
  pose proof (Z.mod_pos_bound (x + 2147483648) 4294967296 ltac:(lia)). lia.
Qed.

Lemma read_uint32_le_sum (p : list Z) :
  is_u8 (nth 0 p 0) -> is_u8 (nth 1 p 0) -> is_u8 (nth 2 p 0) ->
  0 <= nth 3 p 0 < 128 ->
  read_uint32_le p
  = nth 0 p 0 + 256 * nth 1 p 0 + 65536 * nth 2 p 0 + 16777216 * nth 3 p 0.
Proof.
  unfold is_u8, read_uint32_le. intros H0 H1 H2 H3.
  rewrite (lor_shiftl_add (nth 0 p 0) (nth 1 p 0) 8)
    by (change (2 ^ 8) with 256; lia).
  change (2 ^ 8) with 256.
  rewrite (lor_shiftl_add _ (nth 2 p 0) 16)
    by (change (2 ^ 16) with 65536; lia).
  change (2 ^ 16) with 65536.
  rewrite (lor_shiftl_add _ (nth 3 p 0) 24)
    by (change (2 ^ 24) with 16777216; lia).
  change (2 ^ 24) with 16777216.
  rewrite to_int_small by lia. lia.
Qed.

Lemma nth_skipn_firstn (fi : list Z) (i : nat) :
  (i < 44)%nat -> nth i (skipn 10 (firstn 54 fi)) 0 = nth (10 + i) fi 0.
Proof.
  intros Hi. rewrite nth_skipn, nth_firstn.
  destruct (Nat.ltb_spec (10 + i) 54); [reflexivity | lia].
Qed.

Lemma header_offset (fi : list Z) :
  Forall is_u8 fi -> (54 <= List.length fi)%nat -> nth 13 fi 0 < 128 ->
  read_uint32_le (skipn 10 (firstn 54 fi)) = le32 fi.
Proof.
  intros Hfi Hlen H13.
  assert (B : forall i, (i < 54)%nat -> is_u8 (nth i fi 0))
    by (intros i Hi; apply ChainFacts.Forall_nth_u8; [exact Hfi | lia]).
  pose proof (B 10%nat ltac:(lia)) as B10. pose proof (B 11%nat ltac:(lia)) as B11.
  pose proof (B 12%nat ltac:(lia)) as B12. pose proof (B 13%nat ltac:(lia)) as B13.
  rewrite read_uint32_le_sum; rewrite ?nth_skipn_firstn by lia;
    cbn [Nat.add]; try assumption.
  - reflexivity.
  - unfold is_u8 in B13. lia.
Qed.

Lemma firstn_plus {A : Type} (a b : nat) (l : list A) :
  firstn (a + b) l = firstn a l ++ firstn b (skipn a l).
Proof.
  revert l. induction a as [| a IH]; intros l.
  - reflexivity.
  - destruct l as [| x l]; [destruct b; reflexivity |].
    cbn [Nat.add firstn skipn app]. rewrite IH. reflexivity.
Qed.

(** The file phase on a file with a full header and the magic bytes. *)
Lemma main_process_file_cases malloc_ok e mode K1 K2 iv fi :
  (54 <= List.length fi)%nat -> nth 0 fi 0 = 66 -> nth 1 fi 0 = 77 ->
  main_process_file malloc_ok e mode K1 K2 iv fi
  = let offBits := read_uint32_le (skipn 10 (firstn 54 fi)) in
    if offBits <=? 54
    then (0, firstn 54 fi ++ process_pixels e mode K1 K2 iv (skipn 54 fi))
    else if negb (malloc_ok (offBits - 54)) then (1, firstn 54 fi)
    else if Z.of_nat (List.length fi) <? offBits then (1, firstn 54 fi)
    else (0, firstn (Z.to_nat offBits) fi
             ++ process_pixels e mode K1 K2 iv (skipn (Z.to_nat offBits) fi)).
Proof.
  intros Hlen HB HM. unfold main_process_file. cbv zeta.
  assert (L : List.length (firstn 54 fi) = 54%nat)
    by (rewrite length_firstn; lia).
  rewrite L. change (Z.of_nat 54 =? 54) with true. cbn [negb].
  rewrite !nth_firstn. cbn [Nat.ltb Nat.leb]. rewrite HB, HM.
  change (negb (66 =? 66) || negb (77 =? 77)) with false. cbv iota.
  set (offBits := read_uint32_le (skipn 10 (firstn 54 fi))).
  pose proof (to_int_range
    (Z.lor (Z.lor (Z.lor (nth 0 (skipn 10 (firstn 54 fi)) 0)
                         (Z.shiftl (nth 1 (skipn 10 (firstn 54 fi)) 0) 8))
                  (Z.shiftl (nth 2 (skipn 10 (firstn 54 fi)) 0) 16))
           (Z.shiftl (nth 3 (skipn 10 (firstn 54 fi)) 0) 24))) as R.
  fold (read_uint32_le (skipn 10 (firstn 54 fi))) in R. fold offBits in R.
  destruct (Z.ltb_spec offBits 54) as [Hlt | Hge].
  - change (54 >? 54) with false. cbv iota.
    destruct (Z.leb_spec offBits 54); [reflexivity | lia].
  - rewrite Z.gtb_ltb.
    destruct (Z.ltb_spec 54 offBits) as [Hgt | Hle];
      destruct (Z.leb_spec offBits 54) as [Hle' | Hgt']; try lia;
      [| reflexivity].
    destruct (malloc_ok (offBits - 54)); cbn [negb]; [| reflexivity].
    rewrite length_firstn, length_skipn.
    destruct (Z.ltb_spec (Z.of_nat (List.length fi)) offBits) as [Hshort | Hok].
    + rewrite to_int_small by lia.
      destruct (Z.eqb_spec (Z.of_nat (Nat.min (Z.to_nat (offBits - 54))
                                        (List.length fi - 54))) (offBits - 54));
        [lia | reflexivity].
    + rewrite to_int_small by lia.
      destruct (Z.eqb_spec (Z.of_nat (Nat.min (Z.to_nat (offBits - 54))
                                        (List.length fi - 54))) (offBits - 54));
        [| lia].
      cbn [negb]. rewrite skipn_skipn.
      replace (Z.to_nat offBits) with (54 + Z.to_nat (offBits - 54))%nat by lia.
      rewrite firstn_plus.
      replace (Z.to_nat (offBits - 54) + 54)%nat
        with (54 + Z.to_nat (offBits - 54))%nat by lia.
      reflexivity.
Qed.

End FileFacts.

Module FileFacts2.
Import Sdes Bmper Aux BmpFile FileFacts.

Lemma main_process_file_short malloc_ok e mode K1 K2 iv fi :
  (List.length fi < 54)%nat ->
  main_process_file malloc_ok e mode K1 K2 iv fi = (1, []).
Proof.
  intros H. unfold main_process_file. cbv zeta.
  rewrite length_firstn.
  destruct (Z.eqb_spec (Z.of_nat (Nat.min 54 (List.length fi))) 54); [lia |].
  reflexivity.
Qed.

Lemma main_process_file_magic malloc_ok e mode K1 K2 iv fi :
  (54 <= List.length fi)%nat -> nth 0 fi 0 <> 66 \/ nth 1 fi 0 <> 77 ->
  main_process_file malloc_ok e mode K1 K2 iv fi = (1, []).
Proof.
  intros Hlen H. unfold main_process_file. cbv zeta.
  rewrite length_firstn.
  destruct (Z.eqb_spec (Z.of_nat (Nat.min 54 (List.length fi))) 54); [| lia].
  cbn [negb]. rewrite !nth_firstn. cbn [Nat.ltb Nat.leb].
  destruct (Z.eqb_spec (nth 0 fi 0) 66), (Z.eqb_spec (nth 1 fi 0) 77);
    cbn [negb orb]; try reflexivity.
  destruct H; contradiction.
Qed.

(** The file phase in terms of the offset field. *)
Lemma main_process_file_offset malloc_ok e mode K1 K2 iv fi :
  Forall is_u8 fi -> (54 <= List.length fi)%nat ->
  nth 0 fi 0 = 66 -> nth 1 fi 0 = 77 -> nth 13 fi 0 < 128 ->
  main_process_file malloc_ok e mode K1 K2 iv fi
  = if le32 fi <=? 54
    then (0, firstn 54 fi ++ process_pixels e mode K1 K2 iv (skipn 54 fi))
    else if negb (malloc_ok (le32 fi - 54)) then (1, firstn 54 fi)
    else if Z.of_nat (List.length fi) <? le32 fi then (1, firstn 54 fi)
    else (0, firstn (Z.to_nat (le32 fi)) fi
             ++ process_pixels e mode K1 K2 iv (skipn (Z.to_nat (le32 fi)) fi)).
Proof.
  intros Hfi Hlen HB HM H13.
  rewrite main_process_file_cases by assumption. cbv zeta.
  rewrite header_offset by assumption. reflexivity.
Qed.

Lemma firstn_nonempty (fi : list Z) :
  (54 <= List.length fi)%nat -> firstn 54 fi <> [].
Proof.
  intros H E. apply (f_equal (@List.length Z)) in E.
  rewrite length_firstn in E. cbn [List.length] in E. lia.
Qed.

(** Success, and then the shape of the output. *)
Lemma main_process_file_success malloc_ok e mode K1 K2 iv fi out :
  Forall is_u8 fi -> nth 13 fi 0 < 128 ->
  main_process_file malloc_ok e mode K1 K2 iv fi = (0, out) ->
  (54 <= data_offset fi <= List.length fi)%nat
  /\ nth 0 fi 0 = 66 /\ nth 1 fi 0 = 77
  /\ (54 < le32 fi -> malloc_ok (le32 fi - 54) = true)
  /\ out = firstn (data_offset fi) fi
           ++ process_pixels e mode K1 K2 iv (skipn (data_offset fi) fi).
Proof.
  intros Hfi H13 H.
  destruct (le_lt_dec 54 (List.length fi)) as [Hlen | Hshort];
    [| rewrite main_process_file_short in H by exact Hshort; discriminate].
  destruct (Z.eq_dec (nth 0 fi 0) 66) as [HB | HB];
    [| rewrite main_process_file_magic in H by tauto; discriminate].
  destruct (Z.eq_dec (nth 1 fi 0) 77) as [HM | HM];
    [| rewrite main_process_file_magic in H by tauto; discriminate].
  rewrite main_process_file_offset in H by assumption.
  unfold data_offset.
  destruct (Z.leb_spec (le32 fi) 54) as [Hle | Hgt].
  - rewrite Z.max_l by lia. change (Z.to_nat 54) with 54%nat.
    inversion H. repeat split; try assumption; try lia.
  - rewrite Z.max_r by lia.
    destruct (malloc_ok (le32 fi - 54)); cbn [negb] in H; [| discriminate].
    destruct (Z.ltb_spec (Z.of_nat (List.length fi)) (le32 fi));
      [discriminate |].
    inversion H. repeat split; try assumption; try lia.
Qed.

Lemma firstn_app_exact {A : Type} (a b : list A) (n : nat) :
  List.length a = n -> firstn n (a ++ b) = a /\ skipn n (a ++ b) = b.
Proof.
  intros <-. split.
  - rewrite firstn_app, Nat.sub_diag, firstn_all. cbn [firstn].
    apply app_nil_r.
  - rewrite skipn_app, Nat.sub_diag, skipn_all. reflexivity.
Qed.

Lemma nth_app_firstn (fi rest : list Z) (off i : nat) :
  (i < off <= List.length fi)%nat ->
  nth i (firstn off fi ++ rest) 0 = nth i fi 0.
Proof.
  intros H. rewrite app_nth1 by (rewrite length_firstn; lia).
  rewrite nth_firstn. destruct (Nat.ltb_spec i off); [reflexivity | lia].
Qed.

Lemma pixels_round_trip e mode K1 K2 iv x :
  is_u8 K1 -> is_u8 K2 -> is_u8 iv -> Forall is_u8 x -> e <> 0 ->
  process_pixels 0 mode K1 K2 iv (process_pixels e mode K1 K2 iv x) = x.
Proof.
  intros H1 H2 Hiv Hx He.
  rewrite ChainFacts.process_pixels_decrypt.
  rewrite ChainFacts.process_pixels_encrypt by exact He.
  destruct mode.
  - exact (proj1 (ChainFacts.ecb_loops_round_trip K1 K2 x H1 H2 Hx)).
  - exact (BmperFacts.cbc_loops_round_trip K1 K2 x H1 H2 Hx iv Hiv).
  - rewrite <- BmperFacts.ctr_loops_agree.
    apply BmperFacts.ctr_loop_involutive. exact Hx.
Qed.

Lemma process_pixels_length e mode K1 K2 iv fi :
  List.length (process_pixels e mode K1 K2 iv fi) = List.length fi.
Proof.
  unfold process_pixels.
  destruct (negb (e =? 0)), mode; apply BmperFacts.while_fgetc_length.
Qed.

Lemma process_pixels_u8 e mode K1 K2 iv fi :
  Forall is_u8 (process_pixels e mode K1 K2 iv fi).
Proof.
  unfold process_pixels.
  destruct (negb (e =? 0)), mode;
    apply ChainFacts.while_fgetc_bytes; intros st c.
  - apply ChainFacts.ecb_encrypt_body_u8.
  - apply ChainFacts.cbc_encrypt_body_u8.
  - apply ChainFacts.ctr_encrypt_body_u8.
  - apply ChainFacts.ecb_decrypt_body_u8.
  - apply ChainFacts.cbc_decrypt_body_u8.
  - apply ChainFacts.ctr_decrypt_body_u8.
Qed.

Lemma Forall_skipn {A : Type} (P : A -> Prop) (n : nat) (l : list A) :
  Forall P l -> Forall P (skipn n l).
Proof.
  intros H. revert n. induction H as [| x l Hx Hl IH]; intros [| n];
    cbn [skipn]; try constructor; auto.
Qed.

End FileFacts2.

(** X23. [read_uint32_le] on four bytes whose last is below 128 is their
    little-endian value, a number from 0 to 2^31 - 1. *)
Theorem read_uint32_le_little_endian (p : list Z) :
  is_u8 (nth 0 p 0) -> is_u8 (nth 1 p 0) -> is_u8 (nth 2 p 0) ->
  0 <= nth 3 p 0 < 128 ->
  read_uint32_le p
  = nth 0 p 0 + 256 * nth 1 p 0 + 65536 * nth 2 p 0 + 16777216 * nth 3 p 0
  /\ 0 <= read_uint32_le p < 2147483648.
Proof.
  intros H0 H1 H2 H3.
  rewrite FileFacts.read_uint32_le_sum by assumption.
  unfold is_u8 in *. split; [reflexivity | lia].
Qed.

Lemma read_uint32_le_little_endian_witness :
  read_uint32_le [56; 1; 0; 0]
  = nth 0 [56; 1; 0; 0] 0 + 256 * nth 1 [56; 1; 0; 0] 0
    + 65536 * nth 2 [56; 1; 0; 0] 0 + 16777216 * nth 3 [56; 1; 0; 0] 0.
Proof.
  apply (proj1 (read_uint32_le_little_endian [56; 1; 0; 0]
    ltac:(unfold is_u8; cbn; lia) ltac:(unfold is_u8; cbn; lia)
    ltac:(unfold is_u8; cbn; lia) ltac:(cbn; lia))).
Defined.

(** X24. The file phase fails with status 1 and writes nothing exactly when
    the file has fewer than 54 bytes or does not start with 'B', 'M'. *)
Theorem main_process_file_rejects (malloc_ok : Z -> bool) (e : Z)
    (mode : sdes_mode_t) (K1 K2 iv : Z) (fi : list Z) :
  main_process_file malloc_ok e mode K1 K2 iv fi = (1, [])
  <-> (List.length fi < 54)%nat \/ nth 0 fi 0 <> 66 \/ nth 1 fi 0 <> 77.
Proof.
  split.
  - intros H.
    destruct (le_lt_dec 54 (List.length fi)) as [Hlen | Hshort]; [| tauto].
    destruct (Z.eq_dec (nth 0 fi 0) 66) as [HB | HB]; [| tauto].
    destruct (Z.eq_dec (nth 1 fi 0) 77) as [HM | HM]; [| tauto].
    exfalso. rewrite FileFacts.main_process_file_cases in H by assumption.
    cbv zeta in H.
    pose proof (FileFacts2.firstn_nonempty fi Hlen) as Hne.
    destruct (read_uint32_le (skipn 10 (firstn 54 fi)) <=? 54);
      [discriminate |].
    destruct (negb (malloc_ok (read_uint32_le (skipn 10 (firstn 54 fi)) - 54)));
      [inversion H; contradiction |].
    destruct (Z.of_nat (List.length fi)
              <? read_uint32_le (skipn 10 (firstn 54 fi)));
      [inversion H; contradiction | discriminate].
  - intros H.
    destruct (le_lt_dec 54 (List.length fi)) as [Hlen | Hshort].
    + apply FileFacts2.main_process_file_magic; [exact Hlen |].
      destruct H as [H | H]; [lia | exact H].
    + apply FileFacts2.main_process_file_short. exact Hshort.
Qed.

(** X25. When the file ends before the offset its header announces, or the
    buffer for the bytes between header and offset cannot be allocated, the
    file phase fails with status 1 after writing the 54 header bytes and
    nothing else. *)
Theorem main_process_file_truncated (malloc_ok : Z -> bool) (e : Z)
    (mode : sdes_mode_t) (K1 K2 iv : Z) (fi : list Z) :
  Forall is_u8 fi -> (54 <= List.length fi)%nat ->
  nth 0 fi 0 = 66 -> nth 1 fi 0 = 77 -> nth 13 fi 0 < 128 ->
  54 < le32 fi ->
  Z.of_nat (List.length fi) < le32 fi \/ malloc_ok (le32 fi - 54) = false ->
  main_process_file malloc_ok e mode K1 K2 iv fi = (1, firstn 54 fi).
Proof.
  intros Hfi Hlen HB HM H13 Hoff H.
  rewrite FileFacts2.main_process_file_offset by assumption.
  destruct (Z.leb_spec (le32 fi) 54); [lia |].
  destruct (malloc_ok (le32 fi - 54)); cbn [negb]; [| reflexivity].
  destruct (Z.ltb_spec (Z.of_nat (List.length fi)) (le32 fi)); [reflexivity |].
  destruct H as [H | H]; [lia | discriminate].
Qed.

Lemma main_process_file_truncated_witness :
  main_process_file (fun _ => true) 1 MODE_CBC 164 67 9 (firstn 55 sample_bmp)
  = (1, firstn 54 (firstn 55 sample_bmp)).
Proof.
  apply (main_process_file_truncated (fun _ => true) 1 MODE_CBC 164 67 9
           (firstn 55 sample_bmp)).
  - repeat constructor; unfold is_u8; lia.
  - cbn. lia.
  - reflexivity.
  - reflexivity.
  - cbn. lia.
  - cbn. lia.
  - left. cbn. lia.
Defined.

(** X26. When the file phase succeeds on a file of bytes whose offset field
    is below 2^31, the output has the length of the input and repeats its
    bytes up to the data offset (the offset field, at least 54); the rest is
    the pixel loop applied to the rest of the input. *)
Theorem main_process_file_keeps_header (malloc_ok : Z -> bool) (e : Z)
    (mode : sdes_mode_t) (K1 K2 iv : Z) (fi out : list Z) :
  Forall is_u8 fi -> nth 13 fi 0 < 128 ->
  main_process_file malloc_ok e mode K1 K2 iv fi = (0, out) ->
  (54 <= data_offset fi <= List.length fi)%nat
  /\ out = firstn (data_offset fi) fi
           ++ process_pixels e mode K1 K2 iv (skipn (data_offset fi) fi)
  /\ firstn (data_offset fi) out = firstn (data_offset fi) fi
  /\ List.length out = List.length fi.
Proof.
  intros Hfi H13 H.
  destruct (FileFacts2.main_process_file_success _ _ _ _ _ _ _ _ Hfi H13 H)
    as [Hoff [_ [_ [_ Hout]]]].
  split; [exact Hoff | split; [exact Hout |]].
  assert (L : List.length (firstn (data_offset fi) fi) = data_offset fi)
    by (rewrite length_firstn; lia).
  split.
  - rewrite Hout.
    apply (proj1 (FileFacts2.firstn_app_exact _ _ _ L)).
  - rewrite Hout, length_app, L.
    rewrite FileFacts2.process_pixels_length.
    rewrite length_skipn. lia.
Qed.

Lemma main_process_file_keeps_header_witness :
  firstn (data_offset sample_bmp)
    (firstn 56 sample_bmp
     ++ process_pixels 1 MODE_CBC 164 67 9 (skipn 56 sample_bmp))
  = firstn (data_offset sample_bmp) sample_bmp.
Proof.
  apply (main_process_file_keeps_header (fun _ => true) 1 MODE_CBC 164 67 9
           sample_bmp
           (firstn 56 sample_bmp
            ++ process_pixels 1 MODE_CBC 164 67 9 (skipn 56 sample_bmp))).
  - repeat constructor; unfold is_u8; lia.
  - cbn. lia.
  - vm_compute. reflexivity.
Defined.

(** X27. File round trip: in each mode, under 8-bit subkeys and IV, if
    encrypting a file of bytes (offset field below 2^31) succeeds, then
    decrypting the output with the same parameters succeeds, provided its
    allocation does, and gives the input file back. *)
Theorem file_round_trip (m1 m2 : Z -> bool) (e : Z) (mode : sdes_mode_t)
    (K1 K2 iv : Z) (fi out : list Z) :
  is_u8 K1 -> is_u8 K2 -> is_u8 iv ->
  Forall is_u8 fi -> nth 13 fi 0 < 128 -> e <> 0 ->
  (forall n, m2 n = true) ->
  main_process_file m1 e mode K1 K2 iv fi = (0, out) ->
  main_process_file m2 0 mode K1 K2 iv out = (0, fi).
Proof.
  intros H1 H2 Hiv Hfi H13 He Hm2 H.
  destruct (FileFacts2.main_process_file_success _ _ _ _ _ _ _ _ Hfi H13 H)
    as [Hoff [HB [HM [_ Hout]]]].
  set (off := data_offset fi) in *.
  set (px := process_pixels e mode K1 K2 iv (skipn off fi)) in *.
  assert (L : List.length (firstn off fi) = off)
    by (rewrite length_firstn; lia).
  assert (Lout : List.length out = List.length fi).
  { rewrite Hout, length_app, L. unfold px.
    rewrite FileFacts2.process_pixels_length, length_skipn. lia. }
  assert (N : forall i, (i < 54)%nat -> nth i out 0 = nth i fi 0)
    by (intros i Hi; rewrite Hout; apply FileFacts2.nth_app_firstn; lia).
  assert (Hle : le32 out = le32 fi)
    by (unfold le32; rewrite !N by lia; reflexivity).
  assert (Bout : Forall is_u8 out).
  { rewrite Hout. apply Forall_app. split.
    - apply ParseFacts.Forall_firstn. exact Hfi.
    - apply FileFacts2.process_pixels_u8. }
  rewrite FileFacts2.main_process_file_offset;
    [| exact Bout | lia | rewrite N by lia; exact HB
     | rewrite N by lia; exact HM | rewrite N by lia; exact H13].
  rewrite Hle, Lout, Hm2. cbn [negb].
  assert (RT : firstn off out ++ process_pixels 0 mode K1 K2 iv (skipn off out)
               = fi).
  { rewrite Hout.
    destruct (FileFacts2.firstn_app_exact (firstn off fi) px off L) as [F S].
    rewrite F, S. unfold px.
    rewrite FileFacts2.pixels_round_trip;
      [apply firstn_skipn | assumption | assumption | assumption
      | apply FileFacts2.Forall_skipn; exact Hfi | exact He]. }
  unfold off, data_offset in RT, Hoff.
  destruct (Z.leb_spec (le32 fi) 54) as [Hle54 | Hgt54].
  - rewrite Z.max_l in RT by lia. change (Z.to_nat 54) with 54%nat in RT.
    rewrite RT. reflexivity.
  - rewrite Z.max_r in RT, Hoff by lia.
    destruct (Z.ltb_spec (Z.of_nat (List.length fi)) (le32 fi)); [lia |].
    rewrite RT. reflexivity.
Qed.

Lemma file_round_trip_witness :
  main_process_file (fun _ => true) 0 MODE_CBC 164 67 9
    (firstn 56 sample_bmp
     ++ process_pixels 1 MODE_CBC 164 67 9 (skipn 56 sample_bmp))
  = (0, sample_bmp).
Proof.
  apply (file_round_trip (fun _ => true) (fun _ => true) 1 MODE_CBC 164 67 9
           sample_bmp).
  - unfold is_u8. lia.
  - unfold is_u8. lia.
  - unfold is_u8. lia.
  - repeat constructor; unfold is_u8; lia.
  - cbn. lia.
  - lia.
  - reflexivity.
  - vm_compute. reflexivity.
Defined.

(** X28. An offset field of at most 54 is taken as 54: on a file of bytes
    with a full header and the magic bytes the file phase then succeeds
    without allocating, copies 54 bytes and hands the rest to the pixel
    loop. *)
Theorem main_process_file_small_offset (malloc_ok : Z -> bool) (e : Z)
    (mode : sdes_mode_t) (K1 K2 iv : Z) (fi : list Z) :
  Forall is_u8 fi -> (54 <= List.length fi)%nat ->
  nth 0 fi 0 = 66 -> nth 1 fi 0 = 77 -> le32 fi <= 54 ->
  main_process_file malloc_ok e mode K1 K2 iv fi
  = (0, firstn 54 fi ++ process_pixels e mode K1 K2 iv (skipn 54 fi)).
Proof.
  intros Hfi Hlen HB HM Hle.
  assert (B : forall i, (i < 54)%nat -> is_u8 (nth i fi 0))
    by (intros i Hi; apply ChainFacts.Forall_nth_u8; [exact Hfi | lia]).
  pose proof (B 10%nat ltac:(lia)) as B10. pose proof (B 11%nat ltac:(lia)) as B11.
  pose proof (B 12%nat ltac:(lia)) as B12. pose proof (B 13%nat ltac:(lia)) as B13.
  assert (H13 : nth 13 fi 0 < 128)
    by (unfold le32 in Hle; unfold is_u8 in *; lia).
  rewrite FileFacts2.main_process_file_offset by assumption.
  destruct (Z.leb_spec (le32 fi) 54); [reflexivity | lia].
Qed.

Lemma main_process_file_small_offset_witness :
  main_process_file (fun _ => false) 1 MODE_ECB 164 67 0
    ([66; 77] ++ repeat 0 52 ++ [5])
  = (0, firstn 54 ([66; 77] ++ repeat 0 52 ++ [5])
        ++ process_pixels 1 MODE_ECB 164 67 0
             (skipn 54 ([66; 77] ++ repeat 0 52 ++ [5]))).
Proof.
  apply (main_process_file_small_offset (fun _ => false) 1 MODE_ECB 164 67 0
           ([66; 77] ++ repeat 0 52 ++ [5])).
  - repeat constructor; unfold is_u8; lia.
  - cbn. lia.
  - reflexivity.
  - reflexivity.
  - cbn. lia.
Defined.
